(** * A CSV record store over a versioned blob store

    Shallow embedding of the record store of [cookie-manager.js]: the text
    codec [CsvUtils], the predicate builder [csvDataFilter], the query
    executor [csvDataFetcher], the mutation executor [csvModifyHandler] and
    the facade [csvDb], followed by the properties proved about them.

    Conventions of the embedding.
    - A JavaScript string is a list of code units, [list ascii]; code units
      are restricted to the range 0..255.
    - A JavaScript object used as a dictionary is a [gmap] from strings to
      values, its own properties.
    - A value is [null], [undefined] or a string.  Every place where the
      program receives another primitive (a number, a boolean) converts it
      with [String(...)] before using it, so such a value is represented by
      its string form.
    - A function that can throw returns a [result].

    The embedding comes in two parts.  The first reads a field of a row as
    a lookup among the row's own properties: that is what the program does
    for the fields of a table's header, none of which is taken to bear a
    name that every object inherits (toString, constructor, __proto__ and
    the like).  The second part, the module [Exact], reads a field through
    the prototype, lets a predicate throw, rounds numbers to binary64 and
    leaves the collation of strings to the host; the properties in which a
    field name chosen by the caller, the value of a number or the order of
    strings plays a part are stated on it. *)

From Stdlib Require Import Ascii String ZArith List Lia.
From stdpp Require Import base option list gmap strings.

Open Scope Z_scope.

(** ** Strings and values *)

Abbreviation jsstring := (list ascii).

Definition str (s : string) : jsstring := list_ascii_of_string s.

Definition QUOTE : ascii := ascii_of_nat 34.
Definition COMMA : ascii := ","%char.
Definition BACKSLASH : ascii := "\"%char.
Definition LF : ascii := ascii_of_nat 10.
Definition CR : ascii := ascii_of_nat 13.

Inductive jsval :=
| JNull
| JUndefined
| JString (s : jsstring).

#[global] Instance jsval_eq_dec : EqDecision jsval.
Proof. solve_decision. Defined.

Abbreviation record := (gmap jsstring jsval).

(** [row[field]] for a field name that no object inherits: an absent
    property reads as [undefined].  [Exact.get] reads any name. *)
Definition getField (row : record) (field : jsstring) : jsval :=
  default JUndefined (row !! field).

(** [String(v)] *)
Definition ToString (v : jsval) : jsstring :=
  match v with
  | JNull => str "null"
  | JUndefined => str "undefined"
  | JString s => s
  end.

(** [v == null], true of [null] and of [undefined]. *)
Definition isNullish (v : jsval) : bool :=
  match v with
  | JString _ => false
  | _ => true
  end.

(** What the program throws: [new Error(message)], a [TypeError] of the
    platform, or the object [{status, message}] of a failed API request. *)
Inductive error :=
| Error (message : jsstring)
| TypeError
| ApiError (status : Z).

Inductive result (A : Type) :=
| Ok (a : A)
| Throw (e : error).
Arguments Ok {A} a.
Arguments Throw {A} e.

Definition bind {A B} (r : result A) (k : A -> result B) : result B :=
  match r with
  | Ok a => k a
  | Throw e => Throw e
  end.

Notation "'let*' x := r 'in' k" := (bind r (fun x => k))
  (at level 10, x name, r at level 100, k at level 200).

(** ** Built-ins of the platform *)

(** [s.split(sep)] for a one-character separator: never the empty array. *)
Fixpoint split (sep : ascii) (s : jsstring) : list jsstring :=
  match s with
  | [] => [[]]
  | c :: rest =>
      if decide (c = sep) then [] :: split sep rest
      else match split sep rest with
           | [] => [[c]]
           | l :: ls => (c :: l) :: ls
           end
  end.

(** [parts.join(sep)] for a one-character separator. *)
Fixpoint join (sep : ascii) (parts : list jsstring) : jsstring :=
  match parts with
  | [] => []
  | [p] => p
  | p :: ps => p ++ sep :: join sep ps
  end.

(** White space and line terminators, the characters [trim] and
    [parseFloat] skip: TAB, LF, VT, FF, CR, SP and NBSP. *)
Definition isWhiteSpace (c : ascii) : bool :=
  let n := nat_of_ascii c in
  bool_decide (n = 9 \/ n = 10 \/ n = 11 \/ n = 12 \/ n = 13 \/ n = 32 \/ n = 160)%nat.

(** [!line.trim()]: the trimmed line is the empty string. *)
Definition isBlank (line : jsstring) : bool := forallb isWhiteSpace line.

(** [s.includes(c)] *)
Definition includes (c : ascii) (s : jsstring) : bool := bool_decide (c ∈ s).

(** [s.replace(/c1c2/g, r)]: every occurrence of the two-character
    sequence, scanning from the left, becomes the character [r]. *)
Fixpoint replacePair (c1 c2 r : ascii) (s : jsstring) : jsstring :=
  match s with
  | a :: rest =>
      match rest with
      | b :: rest' =>
          if decide (a = c1 /\ b = c2) then r :: replacePair c1 c2 r rest'
          else a :: replacePair c1 c2 r rest
      | [] => s
      end
  | [] => []
  end.

(** [s.replace] of every quote character by two quote characters. *)
Definition doubleQuotes (s : jsstring) : jsstring :=
  flat_map (fun c => if decide (c = QUOTE) then [QUOTE; QUOTE] else [c]) s.

(** *** Numbers

    The value of a number is used only by [compareValue], through the sign
    of a difference.  A finite number is kept as an exact decimal
    [m * 10^e]; the rounding to binary64 is [Exact.round64].  Whether
    [parseFloat] gives [NaN] depends on the syntax of its argument
    alone. *)

Inductive jsnum :=
| NaN
| Inf (negative : bool)
| Fin (m e : Z).

Definition isNaN (n : jsnum) : bool :=
  match n with NaN => true | _ => false end.

(** [x - y] *)
Definition numSub (x y : jsnum) : jsnum :=
  match x, y with
  | NaN, _ | _, NaN => NaN
  | Inf s, Inf s' => if Bool.eqb s s' then NaN else Inf s
  | Inf s, Fin _ _ => Inf s
  | Fin _ _, Inf s => Inf (negb s)
  | Fin m1 e1, Fin m2 e2 =>
      let e := Z.min e1 e2 in
      Fin (m1 * 10 ^ (e1 - e) - m2 * 10 ^ (e2 - e)) e
  end.

(** [n > 0], [n >= 0], [n < 0], [n <= 0]; all false of [NaN]. *)
Definition gt0 (n : jsnum) : bool :=
  match n with NaN => false | Inf s => negb s | Fin m _ => 0 <? m end.
Definition ge0 (n : jsnum) : bool :=
  match n with NaN => false | Inf s => negb s | Fin m _ => 0 <=? m end.
Definition lt0 (n : jsnum) : bool :=
  match n with NaN => false | Inf s => s | Fin m _ => m <? 0 end.
Definition le0 (n : jsnum) : bool :=
  match n with NaN => false | Inf s => s | Fin m _ => m <=? 0 end.

Definition isDigit (c : ascii) : bool :=
  let n := nat_of_ascii c in (48 <=? n)%nat && (n <=? 57)%nat.

Definition digitsValue (ds : jsstring) : Z :=
  fold_left (fun acc c => 10 * acc + (Z.of_nat (nat_of_ascii c) - 48)) ds 0.

(** The longest prefix of [s] whose characters satisfy [p], and the rest. *)
Fixpoint span (p : ascii -> bool) (s : jsstring) : jsstring * jsstring :=
  match s with
  | c :: rest =>
      if p c then let '(pre, post) := span p rest in (c :: pre, post)
      else ([], s)
  | [] => ([], [])
  end.

Fixpoint startsWith (p s : jsstring) : bool :=
  match p, s with
  | [], _ => true
  | a :: p', b :: s' => bool_decide (a = b) && startsWith p' s'
  | _ :: _, [] => false
  end.

Definition skipWhiteSpace (s : jsstring) : jsstring := snd (span isWhiteSpace s).

Definition scanSign (s : jsstring) : bool * jsstring :=
  match s with
  | c :: rest =>
      if decide (c = "-"%char) then (true, rest)
      else if decide (c = "+"%char) then (false, rest)
      else (false, s)
  | [] => (false, s)
  end.

(** An exponent part counts only when digits follow the [e]. *)
Definition scanExponent (s : jsstring) : Z * jsstring :=
  match s with
  | c :: rest =>
      if decide (c = "e"%char \/ c = "E"%char) then
        let '(neg, rest1) := scanSign rest in
        let '(ds, rest2) := span isDigit rest1 in
        match ds with
        | [] => (0, s)
        | _ => ((if neg then - digitsValue ds else digitsValue ds), rest2)
        end
      else (0, s)
  | [] => (0, s)
  end.

(** The longest prefix of [s] that is a decimal literal (after leading
    white space): its value and the characters left over. *)
Definition scanFloat (s : jsstring) : option (jsnum * jsstring) :=
  let '(neg, s2) := scanSign (skipWhiteSpace s) in
  if startsWith (str "Infinity") s2 then Some (Inf neg, drop 8 s2)
  else
    let '(ip, s3) := span isDigit s2 in
    let '(fp, s4) :=
      match s3 with
      | c :: rest =>
          if decide (c = "."%char) then
            let '(fp, rest') := span isDigit rest in
            match ip, fp with
            | [], [] => ([], s3)
            | _, _ => (fp, rest')
            end
          else ([], s3)
      | [] => ([], s3)
      end in
    match ip, fp with
    | [], [] => None
    | _, _ =>
        let '(ex, s5) := scanExponent s4 in
        let m := digitsValue (ip ++ fp) in
        Some (Fin (if neg then - m else m) (ex - Z.of_nat (length fp)), s5)
    end.

(** The decimal [parseFloat] reads: the exact value of the longest numeric
    prefix, [NaN] when there is none.  The Number the built-in returns is
    this decimal rounded, [Exact.parseFloat]. *)
Definition parseFloat (s : jsstring) : jsnum :=
  match scanFloat s with
  | Some (n, _) => n
  | None => NaN
  end.

(** *** Natural-order string comparison

    Modelled from the spec: the built-in [localeCompare] with the option
    [numeric: true] is not part of the program; the spec describes it as a
    natural-order rule in which embedded digit runs compare by numeric
    value.  A string is cut into digit runs and single characters; runs
    compare by value, characters by code unit, and a proper prefix comes
    first.  The collation of letters by locale and case is not modelled:
    this is one natural-order collation, not the host's; the properties
    that depend on the order of strings take the host's collation as a
    parameter ([Exact.compareValue]). *)

Inductive token :=
| TNum (digits : jsstring)
| TChar (c : ascii).

Fixpoint tokens (s : jsstring) : list token :=
  match s with
  | [] => []
  | c :: rest =>
      if isDigit c then
        match tokens rest with
        | TNum ds :: ts => TNum (c :: ds) :: ts
        | ts => TNum [c] :: ts
        end
      else TChar c :: tokens rest
  end.

Definition compareToken (a b : token) : comparison :=
  match a, b with
  | TNum x, TNum y => digitsValue x ?= digitsValue y
  | TNum _, TChar c => Nat.compare 48 (nat_of_ascii c)
  | TChar c, TNum _ => Nat.compare (nat_of_ascii c) 48
  | TChar c, TChar d => Nat.compare (nat_of_ascii c) (nat_of_ascii d)
  end.

Fixpoint compareTokens (x y : list token) : comparison :=
  match x, y with
  | [], [] => Eq
  | [], _ :: _ => Lt
  | _ :: _, [] => Gt
  | a :: x', b :: y' =>
      match compareToken a b with
      | Eq => compareTokens x' y'
      | c => c
      end
  end.

Definition localeCompare (a b : jsstring) : jsnum :=
  match compareTokens (tokens a) (tokens b) with
  | Lt => Fin (-1) 0
  | Eq => Fin 0 0
  | Gt => Fin 1 0
  end.

(** ** CsvUtils: the text codec *)

Module CsvUtils.

Definition unescapeField (field : jsstring) : jsstring :=
  replacePair BACKSLASH COMMA COMMA (replacePair BACKSLASH QUOTE QUOTE field).

(** The [while] loop of [parseCsvLine]; [line] is the part of the line from
    index [i] on, [current], [inQuotes] and [result] are the loop's
    variables. *)
Fixpoint parseLoop (line : jsstring) (inQuotes : bool) (current : jsstring)
    (result : list jsstring) : list jsstring :=
  match line with
  | [] => result ++ [unescapeField current]
  | char :: rest =>
      if inQuotes then
        if decide (char = QUOTE) then
          match rest with
          | next :: rest' =>
              if decide (next = QUOTE)
              then parseLoop rest' true (current ++ [QUOTE]) result
              else parseLoop rest false current result
          | [] => parseLoop rest false current result
          end
        else parseLoop rest true (current ++ [char]) result
      else
        if decide (char = QUOTE) then parseLoop rest true current result
        else if decide (char = COMMA)
             then parseLoop rest false [] (result ++ [unescapeField current])
             else parseLoop rest false (current ++ [char]) result
  end.

Definition parseCsvLine (line : jsstring) : list jsstring :=
  parseLoop line false [] [].

Definition escapeCsvField (field : jsval) : jsstring :=
  if isNullish field then []
  else
    let field := ToString field in
    if includes COMMA field || includes QUOTE field || includes LF field
    then QUOTE :: doubleQuotes field ++ [QUOTE]
    else field.

Definition compareValue (a b : jsval) : result jsnum :=
  let numA := parseFloat (ToString a) in
  let numB := parseFloat (ToString b) in
  if negb (isNaN numA) && negb (isNaN numB) then Ok (numSub numA numB)
  else
    (* [a.localeCompare(b, undefined, {numeric: true})]: the receiver must
       be a string, the argument is converted to one. *)
    match a with
    | JString a => Ok (localeCompare a (ToString b))
    | _ => Throw TypeError
    end.

End CsvUtils.

(** *** Regular expressions

    Model of the built-in [RegExp] for the patterns [like] builds: a start
    anchor, then escaped characters, plain characters, [.] and [.*], then
    an end anchor.  Without flags, [.] matches any character but a line
    terminator; among the code units 0..255 of this embedding's strings
    the line terminators are LF and CR (the separators U+2028 and U+2029
    lie outside that range). *)

Inductive atom :=
| Lit (c : ascii)
| AnyChar
| AnyRun.

Definition regexSpecial (c : ascii) : bool :=
  bool_decide (c ∈ str ".*+?^${}()|[]\").

Fixpoint parseAtoms (source : jsstring) : option (list atom) :=
  match source with
  | [] => None
  | c :: rest =>
      if decide (c = BACKSLASH) then
        match rest with
        | e :: rest' => cons (Lit e) <$> parseAtoms rest'
        | [] => None
        end
      else if decide (c = "."%char) then
        match rest with
        | q :: rest' =>
            if decide (q = "*"%char) then cons AnyRun <$> parseAtoms rest'
            else cons AnyChar <$> parseAtoms rest
        | [] => cons AnyChar <$> parseAtoms rest
        end
      else if decide (c = "$"%char) then
        match rest with
        | [] => Some []
        | _ => None
        end
      else if regexSpecial c then None
      else cons (Lit c) <$> parseAtoms rest
  end.

Definition compileRegExp (source : jsstring) : option (list atom) :=
  match source with
  | c :: body => if decide (c = "^"%char) then parseAtoms body else None
  | [] => None
  end.

Definition isLineTerminator (c : ascii) : bool :=
  bool_decide (c = LF \/ c = CR).

Fixpoint matchAtoms (atoms : list atom) (s : jsstring) : bool :=
  match atoms with
  | [] => match s with [] => true | _ => false end
  | Lit c :: atoms' =>
      match s with
      | x :: s' => bool_decide (x = c) && matchAtoms atoms' s'
      | [] => false
      end
  | AnyChar :: atoms' =>
      match s with
      | x :: s' => negb (isLineTerminator x) && matchAtoms atoms' s'
      | [] => false
      end
  | AnyRun :: atoms' =>
      (fix run (s : jsstring) : bool :=
         matchAtoms atoms' s
         || match s with
            | x :: s' => negb (isLineTerminator x) && run s'
            | [] => false
            end) s
  end.

(** [regex.test(v)]; a source outside the modelled fragment matches nothing. *)
Definition regexTest (regex : option (list atom)) (v : jsstring) : bool :=
  match regex with
  | Some atoms => matchAtoms atoms v
  | None => false
  end.

(** [s.replace(/c/g, r)] *)
Definition replaceChar (c : ascii) (r : jsstring) (s : jsstring) : jsstring :=
  flat_map (fun x => if decide (x = c) then r else [x]) s.

(** ** csvDataFilter: the predicate builder

    [_filters] is the list of row tests; each builder function pushes the
    closure named after it with the suffix [_row]. *)

Module csvDataFilter.

Definition predicate := record -> bool.

Definition test (_filters : list predicate) (row : record) : bool :=
  forallb (fun f => f row) _filters.

(** [(value === null || value === undefined) ? null : String(value)] *)
Definition strValueOf (value : jsval) : option jsstring :=
  if isNullish value then None else Some (ToString value).

Definition eq_row (fieldName : jsstring) (strValue : option jsstring) : predicate :=
  fun row =>
    match getField row fieldName with
    | JNull | JUndefined => bool_decide (strValue = None)
    | JString v =>
        match strValue with
        | None => false
        | Some s => bool_decide (v = s)
        end
    end.

Definition eq (fieldName : jsstring) (value : jsval) (_filters : list predicate) :=
  _filters ++ [eq_row fieldName (strValueOf value)].

Definition notEq_row (fieldName : jsstring) (strValue : option jsstring) : predicate :=
  fun row =>
    match getField row fieldName with
    | JNull | JUndefined => bool_decide (strValue <> None)
    | JString v =>
        match strValue with
        | None => true
        | Some s => bool_decide (v <> s)
        end
    end.

Definition notEq (fieldName : jsstring) (value : jsval) (_filters : list predicate) :=
  _filters ++ [notEq_row fieldName (strValueOf value)].

(** [new Set(values.map(v => v == null ? null : String(v)))] *)
Definition valueSet (values : list jsval) : gset (option jsstring) :=
  list_to_set (map strValueOf values).

(** [(v === undefined) ? null : v], as a member of the set. *)
Definition valueToCheck (v : jsval) : option jsstring :=
  match v with
  | JUndefined | JNull => None
  | JString s => Some s
  end.

Definition inValues_row (fieldName : jsstring) (set : gset (option jsstring)) : predicate :=
  fun row => bool_decide (valueToCheck (getField row fieldName) ∈ set).

Definition inValues (fieldName : jsstring) (values : list jsval) (_filters : list predicate) :=
  _filters ++ [inValues_row fieldName (valueSet values)].

Definition notIn_row (fieldName : jsstring) (set : gset (option jsstring)) : predicate :=
  fun row => negb (bool_decide (valueToCheck (getField row fieldName) ∈ set)).

Definition notIn (fieldName : jsstring) (values : list jsval) (_filters : list predicate) :=
  _filters ++ [notIn_row fieldName (valueSet values)].

(** The source text of the regular expression of [like]. *)
Definition likeSource (pattern : jsstring) : jsstring :=
  str "^"
  ++ replaceChar "_"%char (str ".")
       (replaceChar "%"%char (str ".*")
          (flat_map (fun c => if regexSpecial c then [BACKSLASH; c] else [c]) pattern))
  ++ str "$".

Definition like_row (fieldName : jsstring) (regex : option (list atom)) : predicate :=
  fun row =>
    let v := match getField row fieldName with
             | JNull | JUndefined => []
             | JString s => s
             end in
    regexTest regex v.

Definition like (fieldName pattern : jsstring) (_filters : list predicate) :=
  _filters ++ [like_row fieldName (compileRegExp (likeSource pattern))].

Definition _cmpHelper_row (fieldName : jsstring) (strValue : option jsstring)
    (tester : jsnum -> bool) : predicate :=
  fun row =>
    match getField row fieldName, strValue with
    | JString v, Some s =>
        (* [compareValue] does not throw when its first argument is a
           string; [Exact._cmpHelper_row] has the case of a field that
           reads as an inherited property, where it does *)
        match CsvUtils.compareValue (JString v) (JString s) with
        | Ok cmpResult => tester cmpResult
        | Throw _ => false
        end
    | _, _ => false
    end.

Definition _cmpHelper (fieldName : jsstring) (value : jsval) (tester : jsnum -> bool)
    (_filters : list predicate) :=
  _filters ++ [_cmpHelper_row fieldName (strValueOf value) tester].

Definition gt fieldName value := _cmpHelper fieldName value gt0.
Definition ge fieldName value := _cmpHelper fieldName value ge0.
Definition lt fieldName value := _cmpHelper fieldName value lt0.
Definition le fieldName value := _cmpHelper fieldName value le0.

End csvDataFilter.

(** ** Arrays *)

(** Model of [Array.prototype.sort] with a comparator that may throw: a
    stable insertion sort.  An element moves behind another one only when
    the comparator gives a number above zero ([NaN] counts as zero).  The
    language fixes the order of the result only for a consistent
    comparator, and then it is the order this sort gives: sorted and
    stable. *)
Section Sort.
Context {A : Type} (comparefn : A -> A -> result jsnum).

Fixpoint insertSorted (x : A) (sorted : list A) : result (list A) :=
  match sorted with
  | [] => Ok [x]
  | y :: rest =>
      let* c := comparefn x y in
      if gt0 c then (let* rest' := insertSorted x rest in Ok (y :: rest'))
      else Ok (x :: sorted)
  end.

Fixpoint sort (l : list A) : result (list A) :=
  match l with
  | [] => Ok []
  | x :: rest => let* sorted := sort rest in insertSorted x sorted
  end.
End Sort.

(** [l.slice(start, end)]: a negative index counts from the end, and both
    indices are clamped to the array. *)
Definition slice {A} (start end_ : Z) (l : list A) : list A :=
  let len := Z.of_nat (length l) in
  let clamp i := if i <? 0 then Z.max (len + i) 0 else Z.min i len in
  let k := clamp start in
  let final := clamp end_ in
  take (Z.to_nat (final - k)) (drop (Z.to_nat k) l).

(** [Number.MAX_VALUE] *)
Definition MAX_VALUE : Z := 2 ^ 1024 - 2 ^ 971.

(** [-n] *)
Definition numNeg (n : jsnum) : jsnum :=
  match n with
  | NaN => NaN
  | Inf s => Inf (negb s)
  | Fin m e => Fin (- m) e
  end.

(** The row object built from a parsed line:
    [headers.forEach((header, index) => row[header] = values[index] || '')],
    from position [index] on. *)
Fixpoint forEachHeader (headers : list jsstring) (index : nat) (values : list jsstring)
    (row : record) : record :=
  match headers with
  | [] => row
  | header :: rest =>
      forEachHeader rest (S index) values
        (<[header := JString (default [] (values !! index))]> row)
  end.

Definition makeRow (headers values : list jsstring) : record :=
  forEachHeader headers 0 values ∅.

Definition headerError : error := Error (str "csv must contains header").

(** ** csvDataFetcher: the query executor *)

Module csvDataFetcher.

Record handler := {
  shouldHandleData : record -> bool;
  lineOffset : Z;
  lineLimit : Z;
  orderField : option jsstring;
  orderDesc : bool;
  selectField : option (list jsstring)
}.

(** The rows kept by the [for] loop over the data lines. *)
Definition scan (h : handler) (headers : list jsstring) (lines : list jsstring)
    : list record :=
  fold_left
    (fun records line =>
       if isBlank line then records
       else
         let values := CsvUtils.parseCsvLine line in
         let row := makeRow headers values in
         if negb (shouldHandleData h row) then records
         else records ++ [row])
    lines [].

Definition sortRecords (h : handler) (records : list record) : result (list record) :=
  match orderField h with
  | Some valueOrderFiled =>
      sort
        (fun a b =>
           let v1 := getField a valueOrderFiled in
           let v2 := getField b valueOrderFiled in
           let* cmpResult := CsvUtils.compareValue v1 v2 in
           Ok (if orderDesc h then numNeg cmpResult else cmpResult))
        records
  | None => Ok records
  end.

Definition project (selectFields : list jsstring) (row : record) : record :=
  fold_left (fun newRow field => <[field := getField row field]> newRow) selectFields ∅.

Definition fetch (h : handler) (csvContent : jsstring) : result (list record) :=
  let lines := split LF csvContent in
  if decide (length lines = 0%nat) then Throw headerError
  else
    let headers := CsvUtils.parseCsvLine (nth 0 lines []) in
    let records := scan h headers (drop 1 lines) in
    let* records := sortRecords h records in
    let start := lineOffset h in
    let end_ := start + lineLimit h in
    match selectField h with
    | None => Ok (slice start end_ records)
    | Some selectFields => Ok (map (project selectFields) (slice start end_ records))
    end.

End csvDataFetcher.

(** ** csvModifyHandler: the mutation executor *)

Module csvModifyHandler.

(** [handleData] gives [None] for [null], the mark of a dropped row. *)
Record handler := {
  appendRows : list record;
  shouldHandleData : record -> bool;
  handleData : record -> option record
}.

Record outcome := {
  affectedCount : nat;
  csvContent : jsstring
}.

(** [headers.map(header => row[header] ?? '')] *)
Definition prepareRecord (headers : list jsstring) (row : record) : list jsval :=
  map (fun header =>
         match getField row header with
         | JNull | JUndefined => JString []
         | v => v
         end) headers.

(** The first [for] loop: the state is ([records], [affectedCount]). *)
Definition scan (h : handler) (headers : list jsstring) (lines : list jsstring)
    : list (list jsval) * nat :=
  fold_left
    (fun '(records, affectedCount) line =>
       if isBlank line then (records, affectedCount)
       else
         let values := CsvUtils.parseCsvLine line in
         let row := makeRow headers values in
         if shouldHandleData h row then
           match handleData h row with
           | Some newRow => (records ++ [prepareRecord headers newRow], S affectedCount)
           | None => (records, S affectedCount)
           end
         else (records ++ [map JString values], affectedCount))
    lines ([], 0%nat).

(** The second [for] loop, over the rows to append. *)
Definition append (h : handler) (headers : list jsstring)
    (state : list (list jsval) * nat) : list (list jsval) * nat :=
  fold_left
    (fun '(records, affectedCount) row =>
       (records ++ [prepareRecord headers row], S affectedCount))
    (appendRows h) state.

Definition serialize (headers : list jsstring) (records : list (list jsval)) : jsstring :=
  let newHeaders := join COMMA headers in
  join LF (newHeaders :: map (fun values => join COMMA (map CsvUtils.escapeCsvField values)) records).

Definition execute (h : handler) (csvContent : jsstring) : result outcome :=
  let lines := split LF csvContent in
  if decide (length lines = 0%nat) then Throw headerError
  else
    let headers := CsvUtils.parseCsvLine (nth 0 lines []) in
    let '(records, affectedCount) := append h headers (scan h headers (drop 1 lines)) in
    Ok {| affectedCount := affectedCount; csvContent := serialize headers records |}.

End csvModifyHandler.

(** ** csvDb: the facade

    Each builder is the record of the variables its closures share; the
    handler it installs is computed from that record. *)

Module csvDb.

(** *** update *)

Record updateBuilder := {
  updateFields : gmap jsstring jsstring;
  updateFilter : list csvDataFilter.predicate
}.

Definition update : updateBuilder :=
  {| updateFields := ∅; updateFilter := [] |}.

Definition set (field : jsstring) (value : jsval) (b : updateBuilder) : updateBuilder :=
  {| updateFields :=
       <[field := if isNullish value then [] else ToString value]> (updateFields b);
     updateFilter := updateFilter b |}.

Definition updateHandler (b : updateBuilder) : csvModifyHandler.handler :=
  {| csvModifyHandler.shouldHandleData := csvDataFilter.test (updateFilter b);
     csvModifyHandler.handleData := fun row =>
       Some (map_fold (fun field newVal row => <[field := JString newVal]> row)
               row (updateFields b));
     csvModifyHandler.appendRows := [] |}.

(** *** deleteFrom *)

Definition deleteHandler (csvFilter : list csvDataFilter.predicate)
    : csvModifyHandler.handler :=
  {| csvModifyHandler.shouldHandleData := csvDataFilter.test csvFilter;
     csvModifyHandler.handleData := fun row => None;
     csvModifyHandler.appendRows := [] |}.

(** *** insertInto *)

Definition insertValue (data : record) (appendRows : list record) : list record :=
  appendRows ++ [data].

Definition insertHandler (appendRows : list record) : csvModifyHandler.handler :=
  {| csvModifyHandler.shouldHandleData := fun _ => false;
     csvModifyHandler.handleData := fun row => Some row;
     csvModifyHandler.appendRows := appendRows |}.

(** *** selectFrom *)

Record selectBuilder := {
  fieldNames : list jsstring;
  selectFilter : list csvDataFilter.predicate;
  lineOffset : Z;
  lineLimit : Z;
  orderField : option jsstring;
  orderDesc : bool
}.

Definition selectFrom (fieldNames : list jsstring) : selectBuilder :=
  {| fieldNames := fieldNames; selectFilter := [];
     lineOffset := 0; lineLimit := MAX_VALUE;
     orderField := None; orderDesc := false |}.

Definition withFilter (f : list csvDataFilter.predicate -> list csvDataFilter.predicate)
    (b : selectBuilder) : selectBuilder :=
  {| fieldNames := fieldNames b; selectFilter := f (selectFilter b);
     lineOffset := lineOffset b; lineLimit := lineLimit b;
     orderField := orderField b; orderDesc := orderDesc b |}.

Definition offset (offset : Z) (b : selectBuilder) : result selectBuilder :=
  if offset <? 0 then Throw (Error (str "Offset cannot be negative"))
  else Ok {| fieldNames := fieldNames b; selectFilter := selectFilter b;
             lineOffset := offset; lineLimit := lineLimit b;
             orderField := orderField b; orderDesc := orderDesc b |}.

Definition limit (limit : Z) (b : selectBuilder) : result selectBuilder :=
  if limit <? 0 then Throw (Error (str "Limit cannot be negative"))
  else Ok {| fieldNames := fieldNames b; selectFilter := selectFilter b;
             lineOffset := lineOffset b; lineLimit := limit;
             orderField := orderField b; orderDesc := orderDesc b |}.

Definition order (fieldName : jsstring) (desc : bool) (b : selectBuilder) : selectBuilder :=
  {| fieldNames := fieldNames b; selectFilter := selectFilter b;
     lineOffset := lineOffset b; lineLimit := lineLimit b;
     orderField := Some fieldName; orderDesc := desc |}.

Definition fetcher (b : selectBuilder) : csvDataFetcher.handler :=
  {| csvDataFetcher.shouldHandleData := csvDataFilter.test (selectFilter b);
     csvDataFetcher.lineOffset := lineOffset b;
     csvDataFetcher.lineLimit := lineLimit b;
     csvDataFetcher.orderField := orderField b;
     csvDataFetcher.orderDesc := orderDesc b;
     csvDataFetcher.selectField :=
       match fieldNames b with [] => None | _ => Some (fieldNames b) end |}.

End csvDb.

(** ** The key of a site *)

(** [getRootDomain], on the host name of the page: the last two labels of
    a name of three labels or more, the name itself otherwise. *)
Definition getRootDomain (hostname : jsstring) : jsstring :=
  let parts := split "."%char hostname in
  if (2 <? length parts)%nat
  then join "."%char (slice (-2) (Z.of_nat (length parts)) parts)
  else join "."%char parts.

(** ** The remote store and the facade's read-compute-write cycle *)

Section Remote.

(** The version token of a stored object: the blob hash of its content. *)
Variable sha : jsstring -> jsstring.

(** The repository: a file's content by path. *)
Abbreviation store := (gmap jsstring jsstring).

Record fileInfo := {
  content : jsstring;
  fileSha : jsstring
}.

(** Modelled from the spec: the store's probe-and-read request, which
    fails with NotFound when the object is absent. *)
Definition getFileInfo (path : jsstring) (st : store) : result fileInfo :=
  match st !! path with
  | Some c => Ok {| content := c; fileSha := sha c |}
  | None => Throw (ApiError 404)
  end.

(** [getFileContent]: the content of the file [getFileInfo] describes. *)
Definition getFileContent (path : jsstring) (st : store) : result jsstring :=
  let* info := getFileInfo path st in
  Ok (content info).

(** Modelled from the spec: the store's conditional write, which fails
    with Conflict when the expected version is not the object's current
    one. *)
Definition putFile (path newContent expected : jsstring) (st : store)
    : result store :=
  match st !! path with
  | Some c =>
      if decide (sha c = expected) then Ok (<[path := newContent]> st)
      else Throw (ApiError 409)
  | None => Throw (ApiError 409)
  end.

(** [updateFile]: the file's current sha is asked for first, then the
    content is written under that sha. *)
Definition updateFile (path newContent : jsstring) (st : store) : result store :=
  let* info := getFileInfo path st in
  putFile path newContent (fileSha info) st.

(** One mutating operation of the facade, [execute] of [update],
    [updateBy], [deleteFrom] or [insertInto], between two requests:
    - [Started]: nothing done yet;
    - [Computed]: [getFileContent] has answered and [csvHandler.execute]
      has run; [updateFile] is about to ask for the file's current sha;
    - [Probed]: inside [updateFile], [getFileInfo] has answered;
    - [Returned], [Failed]: the operation is over. *)
Inductive task :=
| Started
| Computed (o : csvModifyHandler.outcome)
| Probed (o : csvModifyHandler.outcome) (token : jsstring)
| Returned (affectedCount : nat)
| Failed (e : error).

(** The next request of an operation and what it does to the store. *)
Definition step (h : csvModifyHandler.handler) (path : jsstring)
    (st : store) (t : task) : store * task :=
  match t with
  | Started =>
      match getFileContent path st with
      | Ok csvContent =>
          match csvModifyHandler.execute h csvContent with
          | Ok o => (st, Computed o)
          | Throw e => (st, Failed e)
          end
      | Throw e => (st, Failed e)
      end
  | Computed o =>
      match getFileInfo path st with
      | Ok info => (st, Probed o (fileSha info))
      | Throw e => (st, Failed e)
      end
  | Probed o token =>
      match putFile path (csvModifyHandler.csvContent o) token st with
      | Ok st' => (st', Returned (csvModifyHandler.affectedCount o))
      | Throw e => (st, Failed e)
      end
  | Returned _ | Failed _ => (st, t)
  end.

(** Two operations on one table; a schedule says whose request is served
    next ([true]: the first operation's). *)
Record world := {
  files : store;
  first : task;
  second : task
}.

Definition serve (hA hB : csvModifyHandler.handler) (path : jsstring)
    (w : world) (who : bool) : world :=
  if who then
    let '(st, t) := step hA path (files w) (first w) in
    {| files := st; first := t; second := second w |}
  else
    let '(st, t) := step hB path (files w) (second w) in
    {| files := st; first := first w; second := t |}.

Definition run (hA hB : csvModifyHandler.handler) (path : jsstring)
    (schedule : list bool) (w : world) : world :=
  fold_left (serve hA hB path) schedule w.

(** The select operation of the facade: one read, then the executor. *)
Definition selectFetch (b : csvDb.selectBuilder) (path : jsstring) (st : store)
    : result (list record) :=
  let* csvContent := getFileContent path st in
  csvDataFetcher.fetch (csvDb.fetcher b) csvContent.

(** Modelled from the spec: the store's unconditional create, which fails
    when the object already exists. *)
Definition createFile (path newContent : jsstring) (st : store) : result store :=
  match st !! path with
  | Some _ => Throw (ApiError 422)
  | None => Ok (<[path := newContent]> st)
  end.

(** The path of a table: the directory, a slash, the name and [.csv]. *)
Definition tablePath (csvPath csvFileName : jsstring) : jsstring :=
  csvPath ++ str "/" ++ csvFileName ++ str ".csv".

(** [csvDb.create]: the header line and a newline. *)
Definition create (csvPath csvFileName : jsstring) (headers : list jsstring)
    (st : store) : result store :=
  let path := tablePath csvPath csvFileName in
  let csvContent := join COMMA headers ++ [LF] in
  createFile path csvContent st.

(** [csvDb.createIfNotExist]: the answer says whether the table was
    created.  The header array itself is handed to [createFile], which
    writes its string form, the names joined by commas. *)
Definition createIfNotExist (csvPath csvFileName : jsstring) (headers : list jsstring)
    (st : store) : result (bool * store) :=
  let path := tablePath csvPath csvFileName in
  match getFileInfo path st with
  | Ok _ => Ok (false, st)
  | Throw error =>
      match error with
      | ApiError status =>
          if decide (status = 404) then
            let* st' := createFile path (join COMMA headers) st in
            Ok (true, st')
          else Throw error
      | _ => Throw error
      end
  end.

(** [execute] of a mutating builder, when no other request is served in
    between: read, compute, write. *)
Definition executeMutation (h : csvModifyHandler.handler) (path : jsstring)
    (st : store) : result (nat * store) :=
  let* csvContent := getFileContent path st in
  let* o := csvModifyHandler.execute h csvContent in
  let* st' := updateFile path (csvModifyHandler.csvContent o) st in
  Ok (csvModifyHandler.affectedCount o, st').

(** [fetchOne] of a select builder: the first row of [fetch], or none. *)
Definition fetchOne (b : csvDb.selectBuilder) (path : jsstring) (st : store)
    : result (option record) :=
  let* values := selectFetch b path st in
  Ok (head values).

End Remote.

(** * The platform, closer up

    The embedding above reads a property of an object as a lookup among its
    own properties, keeps numbers as exact decimals, fixes one collation of
    strings and lets no predicate of a filter throw.  That is how the
    program behaves on the rows it builds under a table's own header and on
    field names that no object inherits.  The functions below embed the same
    source without these simplifications; the properties that turn on them
    are stated on this second embedding. *)

Module Exact.

(** ** Numbers in binary64 *)

(** The greatest [d] with [2^d <= p / q], for positive [p] and [q]. *)
Definition floorLog2 (p q : Z) : Z :=
  let d := Z.log2 p - Z.log2 q in
  if (if 0 <=? d then q * 2 ^ d <=? p else q <=? p * 2 ^ (- d)) then d else d - 1.

(** The binary64 number nearest to the positive rational [p / q], ties to
    the even significand, with the sign given: the significand has 53 bits,
    the exponent of its last bit is no less than -1074, and a result of
    [2^1024] or more is an infinity.  A finite result [n * 2^k] is returned
    as the decimal equal to it: an integer with exponent zero, or an odd
    multiple of a negative power of ten. *)
Definition roundRatio (negative : bool) (p q : Z) : jsnum :=
  let k := Z.max (floorLog2 p q - 52) (-1074) in
  let num := if 0 <=? k then p else p * 2 ^ (- k) in
  let den := if 0 <=? k then q * 2 ^ k else q in
  let n := num / den in
  let r := num mod den in
  let n := if 2 * r <? den then n
           else if den <? 2 * r then n + 1
           else if Z.even n then n else n + 1 in
  if (0 <=? k) && (2 ^ 1024 <=? n * 2 ^ k) then Inf negative
  else
    let n := if negative then - n else n in
    if 0 <=? k then Fin (n * 2 ^ k) 0
    else
      let g := Z.gcd n (2 ^ (- k)) in
      let e := k + Z.log2 g in
      Fin (n / g * 5 ^ (- e)) e.

(** The Number value of an exact decimal. *)
Definition round64 (x : jsnum) : jsnum :=
  match x with
  | Fin m e =>
      if m =? 0 then Fin 0 0
      else if 0 <=? e then roundRatio (m <? 0) (Z.abs m * 10 ^ e) 1
      else roundRatio (m <? 0) (Z.abs m) (10 ^ (- e))
  | _ => x
  end.

(** The built-in [parseFloat]: the Number value of the longest numeric
    prefix, [NaN] when there is none. *)
Definition parseFloat (s : jsstring) : jsnum := round64 (parseFloat s).

(** [x - y] on Numbers: the exact difference, rounded. *)
Definition numSub (x y : jsnum) : jsnum := round64 (numSub x y).

(** ** Properties read through the prototype *)

(** The names every object inherits from [Object.prototype]. *)
Definition prototypeNames : list jsstring :=
  [str "constructor"; str "hasOwnProperty"; str "isPrototypeOf";
   str "propertyIsEnumerable"; str "toLocaleString"; str "toString";
   str "valueOf"; str "__proto__"; str "__defineGetter__";
   str "__defineSetter__"; str "__lookupGetter__"; str "__lookupSetter__"].

Definition inherited (name : jsstring) : bool := bool_decide (name ∈ prototypeNames).

(** What [row[name]] gives on a plain object: the object's own property,
    else the function (the object, under [__proto__]) that
    [Object.prototype] holds under that name, else [undefined]. *)
Inductive property :=
| Own (v : jsval)
| Inherited (name : jsstring).

Definition get (row : record) (name : jsstring) : property :=
  match row !! name with
  | Some v => Own v
  | None => if inherited name then Inherited name else Own JUndefined
  end.

(** [String(v)] of an inherited property.  Under [__proto__] it is the
    string form of [Object.prototype] itself.  Under any other name it is
    the source text of a built-in function, which the language fixes up
    to white space: it begins with the word function in every engine, and
    is written here the way V8 and JavaScriptCore print it. *)
Definition inheritedText (name : jsstring) : jsstring :=
  if decide (name = str "__proto__") then str "[object Object]"
  else if decide (name = str "constructor") then str "function Object() { [native code] }"
  else str "function " ++ name ++ str "() { [native code] }".

(** [String(v)] *)
Definition text (v : property) : jsstring :=
  match v with
  | Own v => ToString v
  | Inherited name => inheritedText name
  end.

(** A returned row: its own properties, each a string, [null],
    [undefined] or a value copied from [Object.prototype]. *)
Abbreviation shownRow := (gmap jsstring property).

(** ** CsvUtils.compareValue *)

Section Collation.

(** [a.localeCompare(b, undefined, {numeric: true})] on two strings, in the
    locale of the host: an integer of which the callers read the sign. *)
Variable collate : jsstring -> jsstring -> Z.

(** [a.localeCompare] exists on a string only: called on anything else,
    an inherited function included, it is a [TypeError]. *)
Definition compareValue (a b : property) : result jsnum :=
  let numA := parseFloat (text a) in
  let numB := parseFloat (text b) in
  if negb (isNaN numA) && negb (isNaN numB) then Ok (numSub numA numB)
  else match a with
       | Own (JString a) => Ok (Fin (collate a (text b)) 0)
       | _ => Throw TypeError
       end.

(** ** csvDataFilter *)

Definition predicate := record -> result bool.

(** [_filters.every(f => f(row))]: the predicates are called in order up
    to the first that answers false or throws. *)
Fixpoint test (_filters : list predicate) (row : record) : result bool :=
  match _filters with
  | [] => Ok true
  | f :: rest =>
      let* accepted := f row in
      if accepted then test rest row else Ok false
  end.

Definition eq_row (fieldName : jsstring) (strValue : option jsstring) : predicate :=
  fun row =>
    match get row fieldName with
    | Own JNull | Own JUndefined => Ok (bool_decide (strValue = None))
    | Own (JString v) =>
        match strValue with
        | None => Ok false
        | Some s => Ok (bool_decide (v = s))
        end
    | Inherited _ => Ok false
    end.

Definition eq (fieldName : jsstring) (value : jsval) (_filters : list predicate) :=
  _filters ++ [eq_row fieldName (csvDataFilter.strValueOf value)].

Definition notEq_row (fieldName : jsstring) (strValue : option jsstring) : predicate :=
  fun row =>
    match get row fieldName with
    | Own JNull | Own JUndefined => Ok (bool_decide (strValue <> None))
    | Own (JString v) =>
        match strValue with
        | None => Ok true
        | Some s => Ok (bool_decide (v <> s))
        end
    | Inherited _ => Ok true
    end.

Definition notEq (fieldName : jsstring) (value : jsval) (_filters : list predicate) :=
  _filters ++ [notEq_row fieldName (csvDataFilter.strValueOf value)].

(** [set.has(valueToCheck)]: the set holds [null] and strings only. *)
Definition has (set : gset (option jsstring)) (v : property) : bool :=
  match v with
  | Own v => bool_decide (csvDataFilter.valueToCheck v ∈ set)
  | Inherited _ => false
  end.

Definition inValues_row (fieldName : jsstring) (set : gset (option jsstring)) : predicate :=
  fun row => Ok (has set (get row fieldName)).

Definition inValues (fieldName : jsstring) (values : list jsval) (_filters : list predicate) :=
  _filters ++ [inValues_row fieldName (csvDataFilter.valueSet values)].

Definition notIn_row (fieldName : jsstring) (set : gset (option jsstring)) : predicate :=
  fun row => Ok (negb (has set (get row fieldName))).

Definition notIn (fieldName : jsstring) (values : list jsval) (_filters : list predicate) :=
  _filters ++ [notIn_row fieldName (csvDataFilter.valueSet values)].

(** [row[fieldName] ?? ''], converted to a string by [regex.test]. *)
Definition like_row (fieldName : jsstring) (regex : option (list atom)) : predicate :=
  fun row =>
    let v := match get row fieldName with
             | Own JNull | Own JUndefined => []
             | v => text v
             end in
    Ok (regexTest regex v).

Definition like (fieldName pattern : jsstring) (_filters : list predicate) :=
  _filters ++ [like_row fieldName (compileRegExp (csvDataFilter.likeSource pattern))].

Definition _cmpHelper_row (fieldName : jsstring) (strValue : option jsstring)
    (tester : jsnum -> bool) : predicate :=
  fun row =>
    match get row fieldName, strValue with
    | Own JNull, _ | Own JUndefined, _ | _, None => Ok false
    | v, Some s =>
        let* cmpResult := compareValue v (Own (JString s)) in
        Ok (tester cmpResult)
    end.

Definition _cmpHelper (fieldName : jsstring) (value : jsval) (tester : jsnum -> bool)
    (_filters : list predicate) :=
  _filters ++ [_cmpHelper_row fieldName (csvDataFilter.strValueOf value) tester].

Definition gt fieldName value := _cmpHelper fieldName value gt0.
Definition ge fieldName value := _cmpHelper fieldName value ge0.
Definition lt fieldName value := _cmpHelper fieldName value lt0.
Definition le fieldName value := _cmpHelper fieldName value le0.

(** ** csvDataFetcher.fetch *)

(** The [sort] call: a row built under the header owns the order field
    when it is a header field; any other order field reads as [undefined]
    or as an inherited property. *)
Definition sortRecords (h : csvDataFetcher.handler) (records : list record)
    : result (list record) :=
  match csvDataFetcher.orderField h with
  | Some valueOrderFiled =>
      sort
        (fun a b =>
           let v1 := get a valueOrderFiled in
           let v2 := get b valueOrderFiled in
           let* cmpResult := compareValue v1 v2 in
           Ok (if csvDataFetcher.orderDesc h then numNeg cmpResult else cmpResult))
        records
  | None => Ok records
  end.

(** [selectFields.forEach(field => newRow[field] = row[field])]: the
    assignment to [__proto__] adds no property. *)
Definition project (selectFields : list jsstring) (row : record) : shownRow :=
  fold_left
    (fun newRow field =>
       if decide (field = str "__proto__") then newRow
       else <[field := get row field]> newRow)
    selectFields ∅.

Definition fetch (h : csvDataFetcher.handler) (csvContent : jsstring)
    : result (list shownRow) :=
  let lines := split LF csvContent in
  if decide (length lines = 0%nat) then Throw headerError
  else
    let headers := CsvUtils.parseCsvLine (nth 0 lines []) in
    let records := csvDataFetcher.scan h headers (drop 1 lines) in
    let* records := sortRecords h records in
    let start := csvDataFetcher.lineOffset h in
    let end_ := start + csvDataFetcher.lineLimit h in
    match csvDataFetcher.selectField h with
    | None => Ok (map (fmap Own) (slice start end_ records))
    | Some selectFields => Ok (map (project selectFields) (slice start end_ records))
    end.

End Collation.

(** ** csvModifyHandler.execute with a predicate that may throw *)

Record handler := {
  appendRows : list record;
  shouldHandleData : record -> result bool;
  handleData : record -> option record
}.

(** One turn of the first [for] loop, on the state ([records],
    [affectedCount]); an exception ends the loop. *)
Definition scanStep (h : handler) (headers : list jsstring)
    (state : result (list (list jsval) * nat)) (line : jsstring)
    : result (list (list jsval) * nat) :=
  let* state := state in
  let '(records, affectedCount) := state in
  if isBlank line then Ok (records, affectedCount)
  else
    let values := CsvUtils.parseCsvLine line in
    let row := makeRow headers values in
    let* accepted := shouldHandleData h row in
    if accepted then
      match handleData h row with
      | Some newRow =>
          Ok (records ++ [csvModifyHandler.prepareRecord headers newRow], S affectedCount)
      | None => Ok (records, S affectedCount)
      end
    else Ok (records ++ [map JString values], affectedCount).

Definition scan (h : handler) (headers : list jsstring) (lines : list jsstring)
    : result (list (list jsval) * nat) :=
  fold_left (scanStep h headers) lines (Ok ([], 0%nat)).

Definition execute (h : handler) (csvContent : jsstring)
    : result csvModifyHandler.outcome :=
  let lines := split LF csvContent in
  if decide (length lines = 0%nat) then Throw headerError
  else
    let headers := CsvUtils.parseCsvLine (nth 0 lines []) in
    let* state := scan h headers (drop 1 lines) in
    let '(records, affectedCount) :=
      fold_left
        (fun '(records, affectedCount) row =>
           (records ++ [csvModifyHandler.prepareRecord headers row], S affectedCount))
        (appendRows h) state in
    Ok {| csvModifyHandler.affectedCount := affectedCount;
          csvModifyHandler.csvContent := csvModifyHandler.serialize headers records |}.

(** ** csvDb.updateBy *)

(** The object [updateDatas]: its own properties, and the record that
    became its prototype if one was assigned to [__proto__]. *)
Record keyed := {
  ownRecords : gmap jsstring record;
  prototype : option record
}.

(** [const updateDatas = {}] *)
Definition noData : keyed := {| ownRecords := ∅; prototype := None |}.

(** [updateDatas[data[fieldName]] = data]: an assignment to [__proto__]
    makes [data] the prototype and adds no property. *)
Definition value (fieldName : jsstring) (data : record) (updateDatas : keyed) : keyed :=
  let key := text (get data fieldName) in
  if decide (key = str "__proto__")
  then {| ownRecords := ownRecords updateDatas; prototype := Some data |}
  else {| ownRecords := <[key := data]> (ownRecords updateDatas);
          prototype := prototype updateDatas |}.

(** [updateDatas.hasOwnProperty] is the built-in function unless a record
    was stored under that very key, or the record that became the
    prototype has a field of that name: what is found then is no
    function. *)
Definition methodShadowed (updateDatas : keyed) : bool :=
  bool_decide (is_Some (ownRecords updateDatas !! str "hasOwnProperty"))
  || match prototype updateDatas with
     | Some data => bool_decide (is_Some (data !! str "hasOwnProperty"))
     | None => false
     end.

Definition updateByHandler (fieldName : jsstring) (updateDatas : keyed) : handler :=
  {| shouldHandleData := fun row =>
       match get row fieldName with
       | Own JNull | Own JUndefined => Ok false
       | v =>
           if methodShadowed updateDatas then Throw TypeError
           else Ok (bool_decide (is_Some (ownRecords updateDatas !! text v)))
       end;
     handleData := fun row => ownRecords updateDatas !! text (get row fieldName);
     appendRows := [] |}.

End Exact.

(** * The vocabulary of the properties

    What the statements below speak of: the table read from a body, the
    rows a mutation writes, the conditions of the spec's claims in the
    spec's own words. *)

(** The header both executors read: the fields of the first line. *)
Definition headersOf (csvContent : jsstring) : list jsstring :=
  CsvUtils.parseCsvLine (nth 0 (split LF csvContent) []).

(** The data lines: the lines after the first that are not blank. *)
Definition dataLines (csvContent : jsstring) : list jsstring :=
  List.filter (fun line => negb (isBlank line)) (drop 1 (split LF csvContent)).

(** The row object both executors build from a data line. *)
Definition rowOf (headers : list jsstring) (line : jsstring) : record :=
  makeRow headers (CsvUtils.parseCsvLine line).

(** The data rows, in file order. *)
Definition dataRows (csvContent : jsstring) : list record :=
  map (rowOf (headersOf csvContent)) (dataLines csvContent).

(** What one data line contributes to the new table. *)
Definition emitted (h : csvModifyHandler.handler) (headers : list jsstring)
    (line : jsstring) : list (list jsval) :=
  let row := rowOf headers line in
  if csvModifyHandler.shouldHandleData h row then
    match csvModifyHandler.handleData h row with
    | Some newRow => [csvModifyHandler.prepareRecord headers newRow]
    | None => []
    end
  else [map JString (CsvUtils.parseCsvLine line)].

(** The number of lines whose row the plan's predicate accepts. *)
Definition processed (h : csvModifyHandler.handler) (headers : list jsstring)
    (lines : list jsstring) : nat :=
  length (List.filter
            (fun line => csvModifyHandler.shouldHandleData h (rowOf headers line)) lines).

(** The rows of the new table, before serialization. *)
Definition newRows (h : csvModifyHandler.handler) (csvContent : jsstring)
    : list (list jsval) :=
  let headers := headersOf csvContent in
  flat_map (emitted h headers) (dataLines csvContent)
  ++ map (csvModifyHandler.prepareRecord headers) (csvModifyHandler.appendRows h).

(** The spec's sentence taken word for word: every row of the new body
    has one value per header field. *)
Definition everyRowExposesHeader (h : csvModifyHandler.handler) (csvContent : jsstring) : Prop :=
  forall o, csvModifyHandler.execute h csvContent = Ok o ->
    Forall (fun line => length (CsvUtils.parseCsvLine line) = length (headersOf csvContent))
      (drop 1 (split LF (csvModifyHandler.csvContent o))).

(** The spec's sentence taken word for word, for one predicate: a record
    that lacks the field and the same record with the empty string in it
    get the same answer. *)
Definition nullEquivalent (p : list csvDataFilter.predicate) (fieldName : jsstring) : Prop :=
  forall row : record,
    csvDataFilter.test p (delete fieldName row)
    = csvDataFilter.test p (<[fieldName := JString []]> row).

(** The spec's words: the value parses fully as a number, that is, the
    numeric literal found by [parseFloat] is the whole string. *)
Definition parsesFully (s : jsstring) : bool :=
  match scanFloat s with
  | Some (_, []) => true
  | _ => false
  end.

(** The string begins with a numeric literal: after white space and an
    optional sign comes [Infinity], a digit, or a dot and a digit. *)
Definition hasNumericPrefix (s : jsstring) : bool :=
  let '(_, s2) := scanSign (skipWhiteSpace s) in
  startsWith (str "Infinity") s2
  || match s2 with
     | c :: rest =>
         isDigit c
         || (bool_decide (c = "."%char)
             && match rest with d :: _ => isDigit d | [] => false end)
     | [] => false
     end.

(** The spec's sentence taken word for word: numbers are compared when
    both values parse fully, strings otherwise. *)
Definition comparesFullNumbers (a b : jsstring) : Prop :=
  CsvUtils.compareValue (JString a) (JString b)
  = Ok (if parsesFully a && parsesFully b
        then numSub (parseFloat a) (parseFloat b)
        else localeCompare a b).

(** A collation to try the statements on: digit runs by value, any other
    character by its code unit. *)
Definition naturalOrder (a b : jsstring) : Z :=
  match compareTokens (tokens a) (tokens b) with
  | Lt => -1
  | Eq => 0
  | Gt => 1
  end.

(** [selectFrom(table, ...fields).order(F).offset(k).limit(m).fetch()]
    with the filter [flt], on a table body already read, under the
    collation of the host. *)
Definition select (collate : jsstring -> jsstring -> Z) (fields : list jsstring)
    (flt : list csvDataFilter.predicate) (F : jsstring) (k m : Z) (csvContent : jsstring)
    : result (list Exact.shownRow) :=
  let b := csvDb.order F false (csvDb.withFilter (fun _ => flt) (csvDb.selectFrom fields)) in
  let* b := csvDb.offset k b in
  let* b := csvDb.limit m b in
  Exact.fetch collate (csvDb.fetcher b) csvContent.

(** The data rows the filter accepts, in file order. *)
Definition matching (flt : list csvDataFilter.predicate) (csvContent : jsstring) : list record :=
  List.filter (csvDataFilter.test flt) (dataRows csvContent).

(** The ascending comparator on field [F]. *)
Definition byField (collate : jsstring -> jsstring -> Z) (F : jsstring) (a b : record)
    : result jsnum :=
  Exact.compareValue collate (Exact.get a F) (Exact.get b F).

(** The row returned for a kept row: the row itself, or the new object
    holding the requested fields. *)
Definition shown (fields : list jsstring) (row : record) : Exact.shownRow :=
  match fields with
  | [] => Exact.Own <$> row
  | _ => Exact.project fields row
  end.

(** What a comparator says of two elements, as [sort] reads it: above
    zero, below zero, or zero ([NaN] counts as zero); nothing when it
    throws. *)
Definition sign {A} (c : A -> A -> result jsnum) (x y : A) : option comparison :=
  match c x y with
  | Ok n => Some (if gt0 n then Gt else if lt0 n then Lt else Eq)
  | Throw _ => None
  end.

(** [x] ranks above [y]: the comparator's answer on them is above zero. *)
Definition above {A} (c : A -> A -> result jsnum) (x y : A) : bool :=
  bool_decide (sign c x y = Some Gt).

(** Neither ranks above the other. *)
Definition tied {A} (c : A -> A -> result jsnum) (x y : A) : bool :=
  negb (above c x y) && negb (above c y x).

(** The conditions under which the language fixes the order [sort] leaves
    the elements in (a consistent comparator): on the elements at hand the
    comparator throws nothing, calls each element equal to itself, and its
    three answers are transitive, "equal" being symmetric as well. *)
Definition consistentAt {A} (c : A -> A -> result jsnum) (x y z : A) : bool :=
  bool_decide (is_Some (sign c x y))
  && bool_decide (sign c x x = Some Eq)
  && implb (bool_decide (sign c x y = Some Eq)) (bool_decide (sign c y x = Some Eq))
  && implb (bool_decide (sign c x y = Some Eq) && bool_decide (sign c y z = Some Eq))
       (bool_decide (sign c x z = Some Eq))
  && implb (bool_decide (sign c x y = Some Lt) && bool_decide (sign c y z = Some Lt))
       (bool_decide (sign c x z = Some Lt))
  && implb (bool_decide (sign c x y = Some Gt) && bool_decide (sign c y z = Some Gt))
       (bool_decide (sign c x z = Some Gt)).

Definition consistent {A} (c : A -> A -> result jsnum) (l : list A) : bool :=
  forallb (fun x => forallb (fun y => forallb (consistentAt c x y) l) l) l.

(** The sequence is in ascending order: no element ranks above a later
    one. *)
Definition ranked {A} (c : A -> A -> result jsnum) (s : list A) : Prop :=
  forall i j x y, (i < j)%nat -> s !! i = Some x -> s !! j = Some y -> above c x y = false.

(** The spec's natural-order rule, as far as its examples go: behind a
    common prefix without digits, two runs of digits rank by their numeric
    value; and a lower-case letter ranks after the letters that precede it
    in the alphabet. *)
Definition naturalCollation (collate : jsstring -> jsstring -> Z) : Prop :=
  (forall prefix x y : jsstring,
     forallb (fun c => negb (isDigit c)) prefix = true ->
     x <> [] -> y <> [] -> forallb isDigit x = true -> forallb isDigit y = true ->
     digitsValue y < digitsValue x ->
     0 < collate (prefix ++ x) (prefix ++ y))
  /\ (forall c d : ascii,
        (97 <= nat_of_ascii c)%nat -> (nat_of_ascii c < nat_of_ascii d)%nat ->
        (nat_of_ascii d <= 122)%nat ->
        0 < collate [d] [c]).

(** The row returned for a kept row: the row itself, or its projection on
    the requested fields. *)
Definition projection (fields : list jsstring) (row : record) : record :=
  match fields with
  | [] => row
  | _ => csvDataFetcher.project fields row
  end.

(** The value has no backslash directly before a quote or a comma. *)
Fixpoint escapeFree (s : jsstring) : bool :=
  match s with
  | a :: rest =>
      negb (bool_decide (a = BACKSLASH)
            && match rest with
               | b :: _ => bool_decide (b = QUOTE \/ b = COMMA)
               | [] => false
               end)
      && escapeFree rest
  | [] => true
  end.

(** The text a value is written as, before quoting. *)
Definition fieldText (v : jsval) : jsstring :=
  match v with
  | JString s => s
  | _ => []
  end.

(** The line written for a record. *)
Definition recordLine (headers : list jsstring) (r : record) : jsstring :=
  join COMMA (map CsvUtils.escapeCsvField (csvModifyHandler.prepareRecord headers r)).

(** The body the mutation executor writes for a header and records. *)
Definition encode (headers : list jsstring) (records : list record) : jsstring :=
  csvModifyHandler.serialize headers (map (csvModifyHandler.prepareRecord headers) records).

(** The rows the query executor reads from a body: every row, in file
    order, all fields. *)
Definition decode (csvContent : jsstring) : result (list record) :=
  csvDataFetcher.fetch (csvDb.fetcher (csvDb.selectFrom [])) csvContent.

(** The spec's sentence taken word for word: decoding the encoding gives
    the records back. *)
Definition roundTrips (headers : list jsstring) (records : list record) : Prop :=
  decode (encode headers records) = Ok records.

(** A header name without comma, quote or newline. *)
Definition plainName (h : jsstring) : Prop :=
  (COMMA ∉ h) /\ (QUOTE ∉ h) /\ (LF ∉ h).

(** A value without newline and without backslash before a quote or comma. *)
Definition safeText (s : jsstring) : Prop :=
  (LF ∉ s) /\ escapeFree s = true.

(** The record has exactly the header's fields, each holding a safe string. *)
Definition headerShaped (headers : list jsstring) (r : record) : Prop :=
  forall h, if decide (h ∈ headers)
            then exists s, r !! h = Some (JString s) /\ safeText s
            else r !! h = None.

(** What a [like] pattern means, character by character. *)
Definition likeAtoms (pattern : jsstring) : list atom :=
  map (fun c => if decide (c = "%"%char) then AnyRun
                else if decide (c = "_"%char) then AnyChar
                else Lit c) pattern.

(** The number of commas of a line. *)
Definition commas (line : jsstring) : nat :=
  length (List.filter (fun c => bool_decide (c = COMMA)) line).

(** The number is an infinity. *)
Definition isInf (n : jsnum) : bool :=
  match n with Inf _ => true | _ => false end.

(** The text [like] matches a field as: the empty string when the field
    reads as [null] or [undefined], the text of what it reads as
    otherwise. *)
Definition likeText (row : record) (fieldName : jsstring) : jsstring :=
  match Exact.get row fieldName with
  | Exact.Own JNull | Exact.Own JUndefined => []
  | v => Exact.text v
  end.

(** The cell written for a header field of a row. *)
Definition cell (row : record) (header : jsstring) : jsval :=
  match getField row header with
  | JNull | JUndefined => JString []
  | v => v
  end.

(** The values of a data line as they are written back untouched. *)
Definition rawValues (line : jsstring) : list jsval :=
  map JString (CsvUtils.parseCsvLine line).

(** The values written for a record under a header: one per header field,
    in header order, the record's string for the field, the empty string
    when the record lacks the field or holds [null] or [undefined] for
    it. *)
Definition written (headers : list jsstring) (r : record) : list jsval :=
  map (fun header =>
         match r !! header with
         | Some (JString s) => JString s
         | _ => JString []
         end) headers.

(** The rows of the new table, one after the other: for each data line
    whose row the plan accepts, the row written for the record
    [handleData] returns (none when it returns [null]); for any other data
    line, the values parsed from it; then the row written for each
    appended record. *)
Definition rowsWritten (h : csvModifyHandler.handler) (csvContent : jsstring)
    : list (list jsval) :=
  let headers := headersOf csvContent in
  flat_map
    (fun line =>
       let row := rowOf headers line in
       if csvModifyHandler.shouldHandleData h row then
         match csvModifyHandler.handleData h row with
         | Some newRow => [written headers newRow]
         | None => []
         end
       else [rawValues line])
    (dataLines csvContent)
  ++ map (written headers) (csvModifyHandler.appendRows h).

(** The line written for a row of values. *)
Definition lineOf (values : list jsval) : jsstring :=
  join COMMA (map CsvUtils.escapeCsvField values).

(** The key a row carries in the key field of an update-by-key: the text
    of what the field reads as, none when it reads as [null] or
    [undefined]. *)
Definition keyOf (fieldName : jsstring) (row : record) : option jsstring :=
  match Exact.get row fieldName with
  | Exact.Own JNull | Exact.Own JUndefined => None
  | v => Some (Exact.text v)
  end.

(** The row of the line carries a key. *)
Definition carriesKey (fieldName : jsstring) (headers : list jsstring) (line : jsstring)
    : bool :=
  bool_decide (is_Some (keyOf fieldName (rowOf headers line))).

(** The row of the line carries a key under which the map holds a
    replacement. *)
Definition hit (fieldName : jsstring) (updateDatas : Exact.keyed)
    (headers : list jsstring) (line : jsstring) : bool :=
  match keyOf fieldName (rowOf headers line) with
  | Some key => bool_decide (is_Some (Exact.ownRecords updateDatas !! key))
  | None => false
  end.

(** The row written for a data line by an update-by-key: the row written
    for the replacement record when the line's key is a key of the map,
    the line's own values otherwise. *)
Definition replaced (fieldName : jsstring) (updateDatas : Exact.keyed)
    (headers : list jsstring) (line : jsstring) : list jsval :=
  match keyOf fieldName (rowOf headers line) with
  | Some key =>
      match Exact.ownRecords updateDatas !! key with
      | Some data => written headers data
      | None => rawValues line
      end
  | None => rawValues line
  end.

(** * Properties *)

(** ** The models on small inputs *)

Example parse_plain :
  CsvUtils.parseCsvLine (str "a,b,,c") = [str "a"; str "b"; str ""; str "c"].
Proof. reflexivity. Qed.

Example parse_quoted :
  CsvUtils.parseCsvLine
    (QUOTE :: str "x," ++ QUOTE :: QUOTE :: str "y" ++ QUOTE :: QUOTE :: QUOTE :: str ",z")
  = [str "x," ++ QUOTE :: str "y" ++ [QUOTE]; str "z"].
Proof. reflexivity. Qed.

Example cmp1 : CsvUtils.compareValue (JString (str "10")) (JString (str "9")) = Ok (Fin 1 0).
Proof. reflexivity. Qed.
Example cmp2 : CsvUtils.compareValue (JString (str "a10")) (JString (str "a2")) = Ok (Fin 1 0).
Proof. reflexivity. Qed.
Example cmp3 : CsvUtils.compareValue (JString (str "10abc")) (JString (str "10xyz")) = Ok (Fin 0 0).
Proof. reflexivity. Qed.
Example cmp4 : parseFloat (str "  -12.50e-1x") = Fin (-1250) (-3).
Proof. reflexivity. Qed.
Example cmp5 : parseFloat (str ".e5") = NaN /\ parseFloat (str "5.") = Fin 5 0 /\ parseFloat (str "1e") = Fin 1 0.
Proof. repeat split; reflexivity. Qed.

Example like1 :
  csvDataFilter.test (csvDataFilter.like (str "d") (str "a.%_m") [])
    (<[str "d" := JString (str "a.example.com")]> ∅) = true.
Proof. vm_compute. reflexivity. Qed.
Example like2 :
  csvDataFilter.test (csvDataFilter.like (str "d") (str "a.%_m") [])
    (<[str "d" := JString (str "aXexample.com")]> ∅) = false.
Proof. vm_compute. reflexivity. Qed.

(** Numbers as the host holds them: the integer above [2^53] that is no
    binary64 number, a literal beyond the largest number, the nearest
    number to one tenth, the smallest number, a literal that rounds to
    zero, and two differences. *)
Example number1 : Exact.parseFloat (str "9007199254740993") = Fin 9007199254740992 0.
Proof. vm_compute. reflexivity. Qed.
Example number2 :
  Exact.parseFloat (str "1e400") = Inf false
  /\ Exact.parseFloat (str "1.7976931348623157e308") = Fin MAX_VALUE 0
  /\ Exact.parseFloat (str "1.7976931348623159e308") = Inf false.
Proof. vm_compute. repeat split. Qed.
Example number3 :
  Exact.parseFloat (str "0.1")
  = Fin 1000000000000000055511151231257827021181583404541015625 (-55).
Proof. vm_compute. reflexivity. Qed.
Example number4 :
  Exact.parseFloat (str "5e-324") = Fin (5 ^ 1074) (-1074)
  /\ Exact.parseFloat (str "2e-324") = Fin 0 0.
Proof. vm_compute. repeat split. Qed.
Example number5 :
  Exact.numSub (Exact.parseFloat (str "0.3")) (Exact.parseFloat (str "0.1"))
  = Exact.parseFloat (str "0.19999999999999998")
  /\ Exact.numSub (Exact.parseFloat (str "1e308")) (Exact.parseFloat (str "-1e308"))
     = Inf false.
Proof. vm_compute. repeat split. Qed.

(** The comparator on them, whatever the collation. *)
Example cmp6 (collate : jsstring -> jsstring -> Z) :
  Exact.compareValue collate
    (Exact.Own (JString (str "9007199254740993")))
    (Exact.Own (JString (str "9007199254740992")))
  = Ok (Fin 0 0)
  /\ Exact.compareValue collate
       (Exact.Own (JString (str "1e400"))) (Exact.Own (JString (str "1e400")))
     = Ok NaN
  /\ Exact.compareValue collate
       (Exact.Own (JString (str "a"))) (Exact.Own (JString (str "B")))
     = Ok (Fin (collate (str "a") (str "B")) 0)
  /\ Exact.compareValue collate
       (Exact.Own (JString (str "10abc"))) (Exact.Own (JString (str "10xyz")))
     = Ok (Fin 0 0)
  /\ Exact.compareValue collate (Exact.Inherited (str "toString")) (Exact.Own (JString (str "1")))
     = Throw TypeError.
Proof. repeat split. Qed.

(** ** The table read from a body *)

Lemma split_length (sep : ascii) (s : jsstring) : (1 <= length (split sep s))%nat.
Proof.
  induction s as [|c rest IH]; simpl; [lia|].
  destruct (decide (c = sep)); simpl; [lia|].
  destruct (split sep rest); simpl; lia.
Qed.

Lemma split_not_empty (sep : ascii) (s : jsstring) : length (split sep s) <> 0%nat.
Proof. pose proof (split_length sep s). lia. Qed.

(** ** The mutation executor, row by row *)

Section Mutation.
Import csvModifyHandler.
Variable h : handler.
Variable headers : list jsstring.

Lemma scan_from (lines : list jsstring) (records : list (list jsval)) (n : nat) :
  fold_left
    (fun '(records, affectedCount) line =>
       if isBlank line then (records, affectedCount)
       else
         let values := CsvUtils.parseCsvLine line in
         let row := makeRow headers values in
         if shouldHandleData h row then
           match handleData h row with
           | Some newRow => (records ++ [prepareRecord headers newRow], S affectedCount)
           | None => (records, S affectedCount)
           end
         else (records ++ [map JString values], affectedCount))
    lines (records, n)
  = (records ++ flat_map (emitted h headers) (List.filter (fun l => negb (isBlank l)) lines),
     (n + processed h headers (List.filter (fun l => negb (isBlank l)) lines))%nat).
Proof.
  revert records n.
  induction lines as [|line lines IH]; intros records n; simpl.
  - unfold processed. simpl. by rewrite app_nil_r, Nat.add_0_r.
  - destruct (isBlank line) eqn:Hb; simpl; [apply IH|].
    assert (He : emitted h headers line
                 = if shouldHandleData h (makeRow headers (CsvUtils.parseCsvLine line))
                   then match handleData h (makeRow headers (CsvUtils.parseCsvLine line)) with
                        | Some newRow => [prepareRecord headers newRow]
                        | None => []
                        end
                   else [map JString (CsvUtils.parseCsvLine line)]) by reflexivity.
    assert (Hp : forall ls, processed h headers (line :: ls)
                 = ((if shouldHandleData h (makeRow headers (CsvUtils.parseCsvLine line))
                     then 1 else 0) + processed h headers ls)%nat).
    { intros ls. unfold processed, rowOf. simpl.
      by destruct (shouldHandleData h _). }
    rewrite Hp, He.
    destruct (shouldHandleData h (makeRow headers (CsvUtils.parseCsvLine line))).
    + destruct (handleData h (makeRow headers (CsvUtils.parseCsvLine line)));
        rewrite IH; f_equal; rewrite <- ?app_assoc; simpl; try reflexivity; lia.
    + rewrite IH. f_equal. by rewrite <- app_assoc.
Qed.

Lemma scan_spec (lines : list jsstring) :
  scan h headers lines
  = (flat_map (emitted h headers) (List.filter (fun l => negb (isBlank l)) lines),
     processed h headers (List.filter (fun l => negb (isBlank l)) lines)).
Proof. unfold scan. by rewrite scan_from. Qed.

Lemma append_from (rows : list record) (records : list (list jsval)) (n : nat) :
  fold_left
    (fun '(records, affectedCount) row =>
       (records ++ [prepareRecord headers row], S affectedCount))
    rows (records, n)
  = (records ++ map (prepareRecord headers) rows, (n + length rows)%nat).
Proof.
  revert records n.
  induction rows as [|row rows IH]; intros records n; simpl.
  - by rewrite app_nil_r, Nat.add_0_r.
  - rewrite IH. f_equal; [by rewrite <- app_assoc | lia].
Qed.

End Mutation.

Lemma execute_spec (h : csvModifyHandler.handler) (csvContent : jsstring) :
  csvModifyHandler.execute h csvContent
  = Ok {| csvModifyHandler.affectedCount :=
            processed h (headersOf csvContent) (dataLines csvContent)
            + length (csvModifyHandler.appendRows h);
          csvModifyHandler.csvContent :=
            csvModifyHandler.serialize (headersOf csvContent) (newRows h csvContent) |}.
Proof.
  unfold csvModifyHandler.execute.
  destruct (decide _) as [E|_]; [by apply split_not_empty in E|].
  rewrite scan_spec. unfold csvModifyHandler.append. rewrite append_from.
  reflexivity.
Qed.

Lemma processed_filter (h : csvModifyHandler.handler) (headers : list jsstring)
    (lines : list jsstring) :
  processed h headers lines
  = length (List.filter (csvModifyHandler.shouldHandleData h) (map (rowOf headers) lines)).
Proof.
  unfold processed.
  induction lines as [|line lines IH]; simpl; [done|].
  destruct (csvModifyHandler.shouldHandleData h (rowOf headers line)); simpl; lia.
Qed.

(** C5. For every table body and every mutation plan, the returned
    [affectedCount] is the number of data rows for which the plan's
    predicate holds plus the number of appended rows; what [handleData]
    does with a row (replace it, drop it) plays no part in the count. *)
Theorem affectedCount_definition (h : csvModifyHandler.handler) (csvContent : jsstring) :
  exists o,
    csvModifyHandler.execute h csvContent = Ok o
    /\ csvModifyHandler.affectedCount o
       = (length (List.filter (csvModifyHandler.shouldHandleData h) (dataRows csvContent))
          + length (csvModifyHandler.appendRows h))%nat.
Proof.
  eexists. split; [apply execute_spec|].
  simpl. unfold dataRows. by rewrite processed_filter.
Qed.

(** ** The header guard *)

Lemma compareValue_throws (a b : jsval) (e : error) :
  CsvUtils.compareValue a b = Throw e -> e = TypeError.
Proof.
  unfold CsvUtils.compareValue.
  destruct (_ && _); [discriminate|].
  destruct a; intros H; by inversion H.
Qed.

Lemma insertSorted_throws {A} (cmp : A -> A -> result jsnum) (x : A) (l : list A) (e : error) :
  (forall a b e', cmp a b = Throw e' -> e' = TypeError) ->
  insertSorted cmp x l = Throw e -> e = TypeError.
Proof.
  intros Hcmp. induction l as [|y rest IH]; simpl; [discriminate|].
  destruct (cmp x y) as [c|e'] eqn:Hc; simpl.
  - destruct (gt0 c); [|discriminate].
    destruct (insertSorted cmp x rest) as [r|e'']; simpl; [discriminate|].
    intros H; inversion H; subst. by apply IH.
  - intros H; inversion H; subst. by eapply Hcmp.
Qed.

Lemma sort_throws {A} (cmp : A -> A -> result jsnum) (l : list A) (e : error) :
  (forall a b e', cmp a b = Throw e' -> e' = TypeError) ->
  sort cmp l = Throw e -> e = TypeError.
Proof.
  intros Hcmp. induction l as [|x rest IH]; simpl; [discriminate|].
  destruct (sort cmp rest) as [sorted|e'] eqn:Hs; simpl.
  - by apply insertSorted_throws.
  - intros H; inversion H; subst. by apply IH.
Qed.

Lemma sortRecords_throws (h : csvDataFetcher.handler) (records : list record) (e : error) :
  csvDataFetcher.sortRecords h records = Throw e -> e = TypeError.
Proof.
  unfold csvDataFetcher.sortRecords.
  destruct (csvDataFetcher.orderField h) as [f|]; [|discriminate].
  apply sort_throws. intros a b e'.
  destruct (CsvUtils.compareValue _ _) as [c|e''] eqn:Hc; simpl; [discriminate|].
  intros H; inversion H; subst. by eapply compareValue_throws.
Qed.

(** C4. The guard [lines.length === 0] of both decoders is never taken,
    because [split] gives at least one line: neither decoder ever fails
    for want of a header, and the empty body, which has no header line, is
    decoded as a table whose header is one field with the empty name. *)
Theorem header_guard_never_fires :
  (forall h csvContent, csvDataFetcher.fetch h csvContent <> Throw headerError)
  /\ (forall h csvContent, csvModifyHandler.execute h csvContent <> Throw headerError)
  /\ csvDataFetcher.fetch (csvDb.fetcher (csvDb.selectFrom [])) [] = Ok []
  /\ csvModifyHandler.execute (csvDb.deleteHandler []) []
     = Ok {| csvModifyHandler.affectedCount := 0; csvModifyHandler.csvContent := [] |}
  /\ headersOf [] = [[]].
Proof.
  repeat split.
  - intros h csvContent. unfold csvDataFetcher.fetch.
    destruct (decide _) as [E|_]; [by apply split_not_empty in E|].
    destruct (csvDataFetcher.sortRecords h _) as [records|e] eqn:Hs; simpl.
    + by destruct (csvDataFetcher.selectField h).
    + apply sortRecords_throws in Hs. by subst.
  - intros h csvContent. by rewrite execute_spec.
Qed.

(** ** Rows written one by one *)

Lemma flat_map_singleton {A B} (f : A -> B) (g : A -> list B) (l : list A) :
  (forall x, g x = [f x]) -> flat_map g l = map f l.
Proof. intros H. induction l as [|x l IH]; simpl; [done|]. by rewrite H, IH. Qed.

(** ** Predicates on absent and empty fields *)

Lemma getField_delete (row : record) (fieldName : jsstring) :
  getField (delete fieldName row) fieldName = JUndefined.
Proof. unfold getField. by rewrite lookup_delete_eq. Qed.

Lemma getField_insert (row : record) (fieldName : jsstring) (v : jsval) :
  getField (<[fieldName := v]> row) fieldName = v.
Proof. unfold getField. by rewrite lookup_insert_eq. Qed.

Lemma test_single (p : csvDataFilter.predicate) (row : record) :
  csvDataFilter.test [p] row = p row.
Proof. unfold csvDataFilter.test. simpl. by rewrite andb_true_r. Qed.

Lemma strValueOf_None (value : jsval) :
  csvDataFilter.strValueOf value = None <-> isNullish value = true.
Proof. unfold csvDataFilter.strValueOf. destruct value; simpl; split; congruence. Qed.

Lemma strValueOf_Some (value : jsval) (s : jsstring) :
  csvDataFilter.strValueOf value = Some s <-> value = JString s.
Proof. unfold csvDataFilter.strValueOf. destruct value; simpl; split; congruence. Qed.

Lemma valueSet_null (values : list jsval) :
  None ∈ csvDataFilter.valueSet values <-> exists v, v ∈ values /\ isNullish v = true.
Proof.
  unfold csvDataFilter.valueSet.
  rewrite elem_of_list_to_set, list_elem_of_fmap.
  split; intros [v [H1 H2]]; exists v.
  - split; [done|]. by apply strValueOf_None.
  - split; [|done]. symmetry. by apply strValueOf_None.
Qed.

Lemma valueSet_string (values : list jsval) (s : jsstring) :
  Some s ∈ csvDataFilter.valueSet values <-> JString s ∈ values.
Proof.
  unfold csvDataFilter.valueSet.
  rewrite elem_of_list_to_set, list_elem_of_fmap.
  split.
  - intros [v [H1 H2]]. symmetry in H1. apply strValueOf_Some in H1. by subst.
  - intros H. exists (JString s). done.
Qed.

(** [eq] with the empty string accepts the empty field and rejects the
    absent one; [eq] with [null] does the opposite. *)
Lemma eq_tells_absent_from_empty :
  ~ nullEquivalent (csvDataFilter.eq (str "f") (JString []) []) (str "f")
  /\ ~ nullEquivalent (csvDataFilter.eq (str "f") JNull []) (str "f").
Proof.
  split; intros H; specialize (H ∅);
    unfold csvDataFilter.eq in H; rewrite !app_nil_l, !test_single in H;
    unfold csvDataFilter.eq_row in H; rewrite getField_delete, getField_insert in H;
    discriminate H.
Qed.

(** ** The value comparator *)

Lemma span_head (p : ascii -> bool) (s : jsstring) :
  fst (span p s) = [] <-> match s with c :: _ => p c = false | [] => True end.
Proof.
  destruct s as [|c rest]; simpl; [done|].
  destruct (p c); [|done]. destruct (span p rest). simpl. split; discriminate.
Qed.

Lemma dot_not_digit : isDigit "."%char = false.
Proof. reflexivity. Qed.

Lemma parseFloat_NaN (s : jsstring) :
  isNaN (parseFloat s) = negb (hasNumericPrefix s).
Proof.
  unfold parseFloat, scanFloat, hasNumericPrefix.
  destruct (scanSign (skipWhiteSpace s)) as [neg s2].
  destruct (startsWith (str "Infinity") s2); [done|].
  rewrite orb_false_l.
  destruct s2 as [|c rest]; [done|].
  simpl span.
  destruct (isDigit c) eqn:Hd.
  - destruct (span isDigit rest) as [pre post].
    rewrite orb_true_l.
    destruct post as [|c' post'].
    + by destruct (scanExponent []).
    + destruct (decide (c' = "."%char)).
      * destruct (span isDigit post') as [fp rest'].
        by destruct (scanExponent rest').
      * by destruct (scanExponent (c' :: post')).
  - rewrite orb_false_l.
    destruct (decide (c = "."%char)) as [->|Hc].
    + rewrite bool_decide_eq_true_2 by done. rewrite andb_true_l.
      pose proof (span_head isDigit rest) as Hh.
      destruct (span isDigit rest) as [fp rest']. simpl in Hh.
      destruct fp as [|d fp].
      * destruct rest as [|d rest]; [done|].
        destruct Hh as [Hh _]. by rewrite Hh.
      * destruct (scanExponent rest').
        destruct rest as [|d' rest]; [by destruct Hh as [_ Hh]; specialize (Hh I)|].
        simpl. destruct (isDigit d') eqn:Hd'; [done|].
        destruct Hh as [_ Hh]. by specialize (Hh eq_refl).
    + rewrite bool_decide_eq_false_2 by done. done.
Qed.

Lemma scanFloat_number (s : jsstring) (n : jsnum) (rest : jsstring) :
  scanFloat s = Some (n, rest) -> isNaN n = false.
Proof.
  unfold scanFloat.
  destruct (scanSign (skipWhiteSpace s)) as [neg s2].
  destruct (startsWith (str "Infinity") s2); [by intros [= <- _]|].
  destruct (span isDigit s2) as [ip s3].
  match goal with
  | |- context [let '(fp, s4) := ?X in _] => destruct X as [fp s4]
  end.
  destruct ip, fp; try discriminate;
    destruct (scanExponent s4); by intros [= <- _].
Qed.

Lemma parsesFully_prefix (s : jsstring) :
  implb (parsesFully s) (hasNumericPrefix s) = true.
Proof.
  pose proof (parseFloat_NaN s) as H.
  unfold parsesFully. unfold parseFloat in H.
  destruct (scanFloat s) as [[n rest]|] eqn:E; [|done].
  apply scanFloat_number in E. rewrite E in H.
  destruct rest; [|done]. simpl.
  by destruct (hasNumericPrefix s).
Qed.

(** Two values that begin with the same digits and differ afterwards are
    compared as numbers, and found equal. *)
Lemma digit_prefix_compared_as_number :
  ~ comparesFullNumbers (str "10abc") (str "10xyz")
  /\ parsesFully (str "10abc") = false
  /\ CsvUtils.compareValue (JString (str "10abc")) (JString (str "10xyz")) = Ok (Fin 0 0)
  /\ localeCompare (str "10abc") (str "10xyz") = Fin (-1) 0.
Proof.
  repeat split. intros H. vm_compute in H. discriminate H.
Qed.

Lemma roundRatio_number (negative : bool) (p q : Z) :
  isNaN (Exact.roundRatio negative p q) = false.
Proof.
  unfold Exact.roundRatio.
  repeat match goal with |- context [if ?b then _ else _] => destruct b end; reflexivity.
Qed.

Lemma round64_NaN (x : jsnum) : isNaN (Exact.round64 x) = isNaN x.
Proof.
  destruct x as [| |m e]; try reflexivity. unfold Exact.round64.
  destruct (m =? 0); [reflexivity|].
  destruct (0 <=? e); apply roundRatio_number.
Qed.

Lemma parseFloat64_NaN (s : jsstring) :
  isNaN (Exact.parseFloat s) = negb (hasNumericPrefix s).
Proof. unfold Exact.parseFloat. by rewrite round64_NaN, parseFloat_NaN. Qed.

Lemma tokens_prefix (prefix s : jsstring) :
  forallb (fun c => negb (isDigit c)) prefix = true ->
  tokens (prefix ++ s) = map TChar prefix ++ tokens s.
Proof.
  induction prefix as [|c prefix IH]; intros H; [done|].
  simpl in H. apply andb_prop in H as [Hc H].
  simpl. apply negb_true_iff in Hc. rewrite Hc. by rewrite IH.
Qed.

Lemma tokens_digits (x : jsstring) :
  x <> [] -> forallb isDigit x = true -> tokens x = [TNum x].
Proof.
  induction x as [|c x IH]; intros Hne H; [done|].
  simpl in H. apply andb_prop in H as [Hc H].
  simpl. rewrite Hc. destruct x as [|d x]; [done|].
  by rewrite IH.
Qed.

Lemma compareTokens_prefix (prefix : jsstring) (x y : list token) :
  compareTokens (map TChar prefix ++ x) (map TChar prefix ++ y) = compareTokens x y.
Proof.
  induction prefix as [|c prefix IH]; [done|].
  simpl. by rewrite Nat.compare_refl.
Qed.

Lemma naturalOrder_natural : naturalCollation naturalOrder.
Proof.
  split.
  - intros prefix x y Hp Hx Hy Hdx Hdy Hlt. unfold naturalOrder.
    rewrite !tokens_prefix, compareTokens_prefix, !tokens_digits by done.
    simpl. by rewrite (proj2 (Z.compare_gt_iff _ _) Hlt).
  - intros c d Hc Hcd Hd. unfold naturalOrder. simpl.
    assert (Hnd : forall a, (97 <= nat_of_ascii a)%nat -> isDigit a = false).
    { intros a Ha. unfold isDigit. apply andb_false_iff. right.
      apply Nat.leb_gt. lia. }
    rewrite (Hnd c), (Hnd d) by lia. simpl.
    by rewrite (proj2 (Nat.compare_gt_iff _ _) Hcd).
Qed.

(** C3, amended. For every pair of strings, [compareValue] compares them
    as numbers exactly when each begins, after optional white space, with
    a numeric literal, whatever follows the literal (so the value 10abc
    counts as the number 10); this covers the values that parse fully.
    The numeric answer is the difference of the two Number values.
    Otherwise the answer is that of the host's [localeCompare] with the
    numeric option on the two strings.  In particular compare(10, 9) is 1;
    compare(a10, a2) and compare(b, a) are answers of the collation, above
    zero under every collation that follows the natural-order rule. *)
Theorem compareValue_dispatch (collate : jsstring -> jsstring -> Z) (a b : jsstring) :
  Exact.compareValue collate (Exact.Own (JString a)) (Exact.Own (JString b))
  = Ok (if hasNumericPrefix a && hasNumericPrefix b
        then Exact.numSub (Exact.parseFloat a) (Exact.parseFloat b)
        else Fin (collate a b) 0)
  /\ implb (parsesFully a) (hasNumericPrefix a) = true
  /\ hasNumericPrefix (str "10abc") = true
  /\ Exact.compareValue collate (Exact.Own (JString (str "10"))) (Exact.Own (JString (str "9")))
     = Ok (Fin 1 0)
  /\ (exists n,
        Exact.compareValue collate
          (Exact.Own (JString (str "a10"))) (Exact.Own (JString (str "a2")))
        = Ok n
        /\ n = Fin (collate (str "a10") (str "a2")) 0
        /\ (naturalCollation collate -> gt0 n = true))
  /\ (exists n,
        Exact.compareValue collate
          (Exact.Own (JString (str "b"))) (Exact.Own (JString (str "a")))
        = Ok n
        /\ n = Fin (collate (str "b") (str "a")) 0
        /\ (naturalCollation collate -> gt0 n = true)).
Proof.
  split; [|split; [apply parsesFully_prefix|split; [reflexivity|split; [reflexivity|]]]].
  - unfold Exact.compareValue. cbn [Exact.text ToString].
    rewrite !parseFloat64_NaN, !negb_involutive.
    by destruct (hasNumericPrefix a && hasNumericPrefix b).
  - split; eexists; (split; [reflexivity|]); (split; [reflexivity|]);
      intros [Hruns Hletters]; cbn [gt0]; apply Z.ltb_lt.
    + apply (Hruns (str "a") (str "10") (str "2")); first [done | vm_compute; reflexivity].
    + apply (Hletters "a"%char "b"%char); vm_compute; lia.
Qed.

(** The comparator under one natural-order collation. *)
Lemma compareValue_dispatch_example :
  gt0 (Fin (naturalOrder (str "a10") (str "a2")) 0) = true
  /\ gt0 (Fin (naturalOrder (str "b") (str "a")) 0) = true.
Proof.
  destruct (compareValue_dispatch naturalOrder [] []) as (_ & _ & _ & _ & H1 & H2).
  destruct H1 as (n1 & _ & -> & H1). destruct H2 as (n2 & _ & -> & H2).
  split; [apply H1 | apply H2]; apply naturalOrder_natural.
Defined.

(** ** Predicates on absent and empty fields, read through the prototype *)

Lemma get_absent (row : record) (fieldName : jsstring) :
  Exact.inherited fieldName = false ->
  Exact.get (delete fieldName row) fieldName = Exact.Own JUndefined.
Proof. intros H. unfold Exact.get. by rewrite lookup_delete_eq, H. Qed.

Lemma get_inherited (row : record) (fieldName : jsstring) :
  Exact.inherited fieldName = true ->
  Exact.get (delete fieldName row) fieldName = Exact.Inherited fieldName.
Proof. intros H. unfold Exact.get. by rewrite lookup_delete_eq, H. Qed.

Lemma get_present (row : record) (fieldName : jsstring) (v : jsval) :
  Exact.get (<[fieldName := v]> row) fieldName = Exact.Own v.
Proof. unfold Exact.get. by rewrite lookup_insert_eq. Qed.

Lemma every_single (p : Exact.predicate) (row : record) :
  Exact.test [p] row = p row.
Proof. unfold Exact.test. by destruct (p row) as [[|]|]. Qed.

(** C2, amended. For a field name that no object inherits: on a record
    that lacks the field and on the same record with the field set to the
    empty string, [eq] and [notEq] give the same result exactly when the
    comparison argument is a string other than the empty one (not [null],
    not [undefined]); [in] and [notIn] give the same result exactly when
    the value list holds a [null] or [undefined] entry if and only if it
    holds the empty string. *)
Theorem null_equivalence_of_predicates (fieldName : jsstring) (row : record) :
  Exact.inherited fieldName = false ->
  let absent := delete fieldName row in
  let empty := <[fieldName := JString []]> row in
  (forall value,
     Exact.test (Exact.eq fieldName value []) absent
     = Exact.test (Exact.eq fieldName value []) empty
     <-> exists s, value = JString s /\ s <> [])
  /\ (forall value,
     Exact.test (Exact.notEq fieldName value []) absent
     = Exact.test (Exact.notEq fieldName value []) empty
     <-> exists s, value = JString s /\ s <> [])
  /\ (forall values,
     Exact.test (Exact.inValues fieldName values []) absent
     = Exact.test (Exact.inValues fieldName values []) empty
     <-> ((exists v, v ∈ values /\ isNullish v = true) <-> JString [] ∈ values))
  /\ (forall values,
     Exact.test (Exact.notIn fieldName values []) absent
     = Exact.test (Exact.notIn fieldName values []) empty
     <-> ((exists v, v ∈ values /\ isNullish v = true) <-> JString [] ∈ values)).
Proof.
  intros Hname absent empty. subst absent empty.
  split; [|split; [|split]].
  - intros value. unfold Exact.eq. rewrite !app_nil_l, !every_single.
    unfold Exact.eq_row. rewrite get_absent, get_present by done.
    destruct value as [| |s]; cbn.
    + split; [discriminate|]. intros [s [? _]]; discriminate.
    + split; [discriminate|]. intros [s [? _]]; discriminate.
    + split.
      * intros H. exists s. split; [done|]. intros ->. discriminate H.
      * intros [s' [[= <-] Hs]]. f_equal. symmetry. apply bool_decide_eq_false_2. congruence.
  - intros value. unfold Exact.notEq. rewrite !app_nil_l, !every_single.
    unfold Exact.notEq_row. rewrite get_absent, get_present by done.
    destruct value as [| |s]; cbn.
    + split; [discriminate|]. intros [s [? _]]; discriminate.
    + split; [discriminate|]. intros [s [? _]]; discriminate.
    + split.
      * intros H. exists s. split; [done|]. intros ->. discriminate H.
      * intros [s' [[= <-] Hs]]. f_equal. symmetry. apply bool_decide_eq_true_2. congruence.
  - intros values. rewrite <- valueSet_null, <- valueSet_string.
    unfold Exact.inValues. rewrite !app_nil_l, !every_single.
    unfold Exact.inValues_row. rewrite get_absent, get_present by done.
    unfold Exact.has, csvDataFilter.valueToCheck. split.
    + intros H. injection H as H. split; intros X; apply (bool_decide_eq_true_2 _) in X;
        apply (bool_decide_eq_true_1 _); congruence.
    + intros H. f_equal. by apply bool_decide_ext.
  - intros values. rewrite <- valueSet_null, <- valueSet_string.
    unfold Exact.notIn. rewrite !app_nil_l, !every_single.
    unfold Exact.notIn_row. rewrite get_absent, get_present by done.
    unfold Exact.has, csvDataFilter.valueToCheck. split.
    + intros H. injection H as H.
      apply (f_equal negb) in H. rewrite !negb_involutive in H.
      split; intros X; apply (bool_decide_eq_true_2 _) in X;
        apply (bool_decide_eq_true_1 _); congruence.
    + intros H. do 2 f_equal. by apply bool_decide_ext.
Qed.

(** On the field [f], [eq] with a string other than the empty one rejects
    both records, and [eq] with the empty string tells them apart. *)
Lemma null_equivalence_of_predicates_example :
  Exact.test (Exact.eq (str "f") (JString (str "x")) []) (delete (str "f") ∅)
  = Exact.test (Exact.eq (str "f") (JString (str "x")) []) (<[str "f" := JString []]> ∅)
  /\ Exact.test (Exact.eq (str "f") (JString []) []) (delete (str "f") ∅)
     <> Exact.test (Exact.eq (str "f") (JString []) []) (<[str "f" := JString []]> ∅).
Proof.
  destruct (null_equivalence_of_predicates (str "f") ∅) as (Heq & _); [reflexivity|].
  split.
  - apply Heq. exists (str "x"). split; [reflexivity|discriminate].
  - intros H. apply Heq in H as (s & Hs & Hne). injection Hs as <-. by apply Hne.
Defined.

(** ** like and the ordering predicates on an absent field *)

Lemma cmpHelper_nullish (collate : jsstring -> jsstring -> Z) (fieldName : jsstring)
    (value : jsval) (tester : jsnum -> bool) (row : record) (v : jsval) :
  isNullish v = true ->
  Exact.get row fieldName = Exact.Own v ->
  Exact.test (Exact._cmpHelper collate fieldName value tester []) row = Ok false.
Proof.
  intros Hv Hrow. unfold Exact._cmpHelper. rewrite app_nil_l, every_single.
  unfold Exact._cmpHelper_row. rewrite Hrow. by destruct v.
Qed.

Lemma cmpHelper_inherited (collate : jsstring -> jsstring -> Z) (fieldName : jsstring)
    (s : jsstring) (tester : jsnum -> bool) (row : record) :
  hasNumericPrefix (Exact.inheritedText fieldName) = false ->
  Exact.get row fieldName = Exact.Inherited fieldName ->
  Exact.test (Exact._cmpHelper collate fieldName (JString s) tester []) row = Throw TypeError.
Proof.
  intros Hn Hrow. unfold Exact._cmpHelper. rewrite app_nil_l, every_single.
  unfold Exact._cmpHelper_row. rewrite Hrow. cbn [csvDataFilter.strValueOf isNullish ToString].
  unfold Exact.compareValue. cbn [Exact.text].
  by rewrite parseFloat64_NaN, Hn.
Qed.

(** The text of an inherited property begins with no number. *)
Lemma inheritedText_not_numeric (name : jsstring) :
  hasNumericPrefix (Exact.inheritedText name) = false.
Proof.
  unfold Exact.inheritedText.
  destruct (decide (name = str "__proto__")); [reflexivity|].
  destruct (decide (name = str "constructor")); reflexivity.
Qed.

(** C10. For every pattern and every field name that no object inherits,
    [like] gives the same result on a record that lacks the field, on one
    that holds [null] for it and on one that holds the empty string: the
    pattern is matched against the empty string.  So [like(field, "%")]
    accepts a record that lacks the field, whereas [gt], [ge], [lt] and
    [le] reject it whatever the comparison argument.  For a field named
    after a property every object inherits, such as toString, the record
    that lacks the field is read as holding the inherited function: [like]
    with the empty pattern rejects it while accepting the empty string,
    and the ordering predicates throw a [TypeError] on it. *)
Theorem like_matches_absent_as_empty (collate : jsstring -> jsstring -> Z)
    (fieldName pattern : jsstring) (row : record) :
  let absent := delete fieldName row in
  let null := <[fieldName := JNull]> row in
  let empty := <[fieldName := JString []]> row in
  let like := Exact.test (Exact.like fieldName pattern []) in
  (Exact.inherited fieldName = false ->
     like absent = like empty
     /\ Exact.test (Exact.like fieldName (str "%") []) absent = Ok true
     /\ forall value,
          Exact.test (Exact.gt collate fieldName value []) absent = Ok false
          /\ Exact.test (Exact.ge collate fieldName value []) absent = Ok false
          /\ Exact.test (Exact.lt collate fieldName value []) absent = Ok false
          /\ Exact.test (Exact.le collate fieldName value []) absent = Ok false)
  /\ like null = like empty
  /\ (forall value,
        Exact.test (Exact.gt collate fieldName value []) null = Ok false
        /\ Exact.test (Exact.ge collate fieldName value []) null = Ok false
        /\ Exact.test (Exact.lt collate fieldName value []) null = Ok false
        /\ Exact.test (Exact.le collate fieldName value []) null = Ok false)
  /\ (Exact.inherited fieldName = true ->
        Exact.test (Exact.like fieldName [] []) absent = Ok false
        /\ Exact.test (Exact.like fieldName [] []) empty = Ok true
        /\ forall s,
             Exact.test (Exact.gt collate fieldName (JString s) []) absent = Throw TypeError
             /\ Exact.test (Exact.ge collate fieldName (JString s) []) absent = Throw TypeError
             /\ Exact.test (Exact.lt collate fieldName (JString s) []) absent = Throw TypeError
             /\ Exact.test (Exact.le collate fieldName (JString s) []) absent = Throw TypeError).
Proof.
  intros absent null empty like. subst absent null empty like.
  unfold Exact.like. rewrite !app_nil_l, !every_single.
  unfold Exact.like_row. rewrite !get_present.
  split; [|split; [done|split]].
  - intros Hname. rewrite !get_absent by done.
    repeat split; eapply cmpHelper_nullish; try (by apply get_absent); reflexivity.
  - intros value.
    repeat split; eapply cmpHelper_nullish; try apply get_present; reflexivity.
  - intros Hname. rewrite !get_inherited by done. split; [|split; [reflexivity|]].
    + cbn [Exact.text]. f_equal. unfold Exact.inheritedText.
      destruct (decide (fieldName = str "__proto__")); [reflexivity|].
      destruct (decide (fieldName = str "constructor")); reflexivity.
    + intros s. repeat split; apply cmpHelper_inherited;
        first [apply inheritedText_not_numeric | by apply get_inherited].
Qed.

(** On the field [f] the three records are alike to [like]; on the field
    toString the record that lacks it is not like the one that holds the
    empty string, and [gt] throws. *)
Lemma like_matches_absent_as_empty_example :
  Exact.test (Exact.like (str "f") (str "%") []) (delete (str "f") ∅) = Ok true
  /\ Exact.test (Exact.like (str "toString") [] []) (delete (str "toString") ∅) = Ok false
  /\ Exact.test (Exact.like (str "toString") [] []) (<[str "toString" := JString []]> ∅)
     = Ok true
  /\ Exact.test (Exact.gt naturalOrder (str "toString") (JString (str "1")) [])
       (delete (str "toString") ∅)
     = Throw TypeError.
Proof.
  destruct (like_matches_absent_as_empty naturalOrder (str "f") (str "%") ∅)
    as (Hf & _ & _ & _).
  destruct (like_matches_absent_as_empty naturalOrder (str "toString") [] ∅)
    as (_ & _ & _ & Ht).
  destruct (Hf eq_refl) as (_ & Hlike & _).
  destruct (Ht eq_refl) as (Ha & He & Hcmp).
  destruct (Hcmp (str "1")) as (Hgt & _).
  repeat split; assumption.
Defined.


(** ** Rows built from a line *)

Lemma forEachHeader_other (headers : list jsstring) (index : nat) (values : list jsstring)
    (row : record) (h : jsstring) :
  h ∉ headers -> forEachHeader headers index values row !! h = row !! h.
Proof.
  revert index row. induction headers as [|header rest IH]; intros index row Hh; simpl; [done|].
  apply not_elem_of_cons in Hh as [Hne Hrest].
  rewrite IH by done. by rewrite lookup_insert_ne.
Qed.

Lemma forEachHeader_field (headers : list jsstring) (index : nat) (values : list jsstring)
    (row : record) (h : jsstring) :
  h ∈ headers ->
  exists i, headers !! i = Some h
    /\ forEachHeader headers index values row !! h
       = Some (JString (default [] (values !! (index + i)%nat))).
Proof.
  revert index row. induction headers as [|header rest IH]; intros index row Hh; simpl.
  - by apply elem_of_nil in Hh.
  - destruct (decide (h ∈ rest)) as [Hin|Hnotin].
    + destruct (IH (S index) (<[header := JString (default [] (values !! index))]> row) Hin)
        as [i [Hi Hv]].
      exists (S i). split; [done|]. rewrite Hv.
      by replace (index + S i)%nat with (S index + i)%nat by lia.
    + apply elem_of_cons in Hh as [->|Hh]; [|done].
      exists 0%nat. split; [done|].
      rewrite forEachHeader_other by done.
      rewrite lookup_insert_eq. by rewrite Nat.add_0_r.
Qed.

(** ** Sorting and slicing *)

Lemma sort_ext {A} (f g : A -> A -> result jsnum) (l : list A) :
  (forall a b, f a b = g a b) -> sort f l = sort g l.
Proof.
  intros Hfg.
  assert (Hins : forall x s, insertSorted f x s = insertSorted g x s).
  { intros x s. induction s as [|y rest IH]; simpl; [done|]. by rewrite Hfg, IH. }
  induction l as [|x rest IH]; simpl; [done|].
  rewrite IH. destruct (sort g rest); simpl; [apply Hins|done].
Qed.

Lemma insertSorted_perm {A} (cmp : A -> A -> result jsnum) (x : A) (l r : list A) :
  insertSorted cmp x l = Ok r -> r ≡ₚ x :: l.
Proof.
  revert r. induction l as [|y rest IH]; intros r; simpl.
  - by intros [= <-].
  - destruct (cmp x y) as [c|]; simpl; [|discriminate].
    destruct (gt0 c); [|by intros [= <-]].
    destruct (insertSorted cmp x rest) as [rest'|]; simpl; [|discriminate].
    intros [= <-]. rewrite (IH rest' eq_refl). apply Permutation_swap.
Qed.

Lemma sort_perm {A} (cmp : A -> A -> result jsnum) (l r : list A) :
  sort cmp l = Ok r -> r ≡ₚ l.
Proof.
  revert r. induction l as [|x rest IH]; intros r; simpl.
  - by intros [= <-].
  - destruct (sort cmp rest) as [sorted|]; simpl; [|discriminate].
    intros H. apply insertSorted_perm in H. rewrite H. by rewrite (IH sorted eq_refl).
Qed.

Lemma slice_window {A} (k m : Z) (l : list A) :
  0 <= k -> 0 <= m ->
  slice k (k + m) l = take (Z.to_nat m) (drop (Z.to_nat k) l).
Proof.
  intros Hk Hm. unfold slice.
  rewrite (proj2 (Z.ltb_ge k 0)) by lia.
  rewrite (proj2 (Z.ltb_ge (k + m) 0)) by lia.
  set (len := Z.of_nat (length l)).
  destruct (Z.le_gt_cases len k) as [Hge|Hlt].
  - rewrite (Z.min_r k len) by lia.
    rewrite (Z.min_r (k + m) len) by lia.
    rewrite Z.sub_diag. simpl.
    rewrite (drop_ge l (Z.to_nat k)) by (subst len; lia). by rewrite take_nil.
  - rewrite (Z.min_l k len) by lia.
    destruct (Z.le_gt_cases (k + m) len) as [Hin|Hout].
    + rewrite Z.min_l by lia. do 2 f_equal. lia.
    + rewrite Z.min_r by lia.
      rewrite !take_ge; [done| |]; rewrite length_drop; subst len; lia.
Qed.

Lemma fetch_scan_spec (h : csvDataFetcher.handler) (headers : list jsstring)
    (lines : list jsstring) :
  csvDataFetcher.scan h headers lines
  = List.filter (csvDataFetcher.shouldHandleData h)
      (map (rowOf headers) (List.filter (fun l => negb (isBlank l)) lines)).
Proof.
  unfold csvDataFetcher.scan.
  enough (H : forall records,
    fold_left
      (fun records line =>
         if isBlank line then records
         else
           let values := CsvUtils.parseCsvLine line in
           let row := makeRow headers values in
           if negb (csvDataFetcher.shouldHandleData h row) then records
           else records ++ [row])
      lines records
    = records ++ List.filter (csvDataFetcher.shouldHandleData h)
        (map (rowOf headers) (List.filter (fun l => negb (isBlank l)) lines))).
  { by rewrite H. }
  induction lines as [|line lines IH]; intros records; simpl.
  - by rewrite app_nil_r.
  - destruct (isBlank line); simpl; [apply IH|].
    change (rowOf headers line) with (makeRow headers (CsvUtils.parseCsvLine line)).
    destruct (csvDataFetcher.shouldHandleData h (makeRow headers (CsvUtils.parseCsvLine line)));
      simpl; rewrite (IH _); [by rewrite <- app_assoc|done].
Qed.

(** ** Pagination *)

(** *** The order [sort] leaves the rows in *)

Lemma filter_none {A} (p : A -> bool) (s : list A) :
  (forall a, a ∈ s -> p a = false) -> List.filter p s = [].
Proof.
  induction s as [|a s IH]; intros H; [done|].
  cbn [List.filter]. rewrite (H a) by (by left). apply IH. intros b Hb. apply H. by right.
Qed.

Section RankingFacts.
Context {A : Type} (c : A -> A -> result jsnum) (l : list A).
Hypothesis Hcons : consistent c l = true.

Lemma consistent_at (x y z : A) :
  x ∈ l -> y ∈ l -> z ∈ l -> consistentAt c x y z = true.
Proof.
  intros Hx Hy Hz. unfold consistent in Hcons.
  rewrite forallb_forall in Hcons.
  specialize (Hcons x (proj1 (list_elem_of_In _ _) Hx)).
  rewrite forallb_forall in Hcons.
  specialize (Hcons y (proj1 (list_elem_of_In _ _) Hy)).
  rewrite forallb_forall in Hcons.
  exact (Hcons z (proj1 (list_elem_of_In _ _) Hz)).
Qed.

Lemma sign_total (x y : A) : x ∈ l -> y ∈ l -> exists s, sign c x y = Some s.
Proof.
  intros Hx Hy. pose proof (consistent_at x y y Hx Hy Hy) as H.
  unfold consistentAt in H. repeat (apply andb_prop in H as [H ?]).
  apply bool_decide_eq_true_1 in H. exact H.
Qed.

Lemma sign_refl (x : A) : x ∈ l -> sign c x x = Some Eq.
Proof.
  intros Hx. pose proof (consistent_at x x x Hx Hx Hx) as H.
  unfold consistentAt in H. repeat (apply andb_prop in H as [H ?]).
  match goal with X : bool_decide (sign c x x = Some Eq) = true |- _ =>
    apply bool_decide_eq_true_1 in X; exact X end.
Qed.

Lemma sign_sym (x y : A) : x ∈ l -> y ∈ l -> sign c x y = Some Eq -> sign c y x = Some Eq.
Proof.
  intros Hx Hy E. pose proof (consistent_at x y y Hx Hy Hy) as H.
  unfold consistentAt in H. repeat (apply andb_prop in H as [H ?]).
  match goal with X : implb (bool_decide (sign c x y = Some Eq)) _ = true |- _ =>
    rewrite (bool_decide_eq_true_2 _ E) in X; simpl in X;
    apply bool_decide_eq_true_1 in X; exact X end.
Qed.

Lemma sign_trans (s : comparison) (x y z : A) :
  x ∈ l -> y ∈ l -> z ∈ l ->
  sign c x y = Some s -> sign c y z = Some s -> sign c x z = Some s.
Proof.
  intros Hx Hy Hz E1 E2. pose proof (consistent_at x y z Hx Hy Hz) as H.
  unfold consistentAt in H. repeat (apply andb_prop in H as [H ?]).
  destruct s;
    match goal with
    | X : implb (bool_decide (sign c x y = Some ?s') && _) _ = true |- sign c x z = Some ?s' =>
        rewrite (bool_decide_eq_true_2 _ E1), (bool_decide_eq_true_2 _ E2) in X; simpl in X;
        apply bool_decide_eq_true_1 in X; exact X
    end.
Qed.

Lemma sign_flip_gt (x y : A) : x ∈ l -> y ∈ l -> sign c x y = Some Gt -> sign c y x = Some Lt.
Proof.
  intros Hx Hy E. destruct (sign_total y x Hy Hx) as [[| |] E'].
  - apply sign_sym in E'; [congruence|done..].
  - done.
  - pose proof (sign_trans Gt x y x Hx Hy Hx E E') as X.
    rewrite (sign_refl x Hx) in X. discriminate X.
Qed.

Lemma above_asym (x y : A) : x ∈ l -> y ∈ l -> above c x y = true -> above c y x = false.
Proof.
  unfold above. intros Hx Hy H. apply bool_decide_eq_true_1 in H.
  apply bool_decide_eq_false_2. rewrite (sign_flip_gt x y Hx Hy H). discriminate.
Qed.

Lemma above_negtrans (x y z : A) :
  x ∈ l -> y ∈ l -> z ∈ l ->
  above c x y = false -> above c y z = false -> above c x z = false.
Proof.
  unfold above. intros Hx Hy Hz H1 H2.
  apply bool_decide_eq_false_1 in H1. apply bool_decide_eq_false_1 in H2.
  apply bool_decide_eq_false_2. intros E.
  pose proof (sign_flip_gt x z Hx Hz E) as Ezx.
  destruct (sign_total x y Hx Hy) as [[| |] E1]; [| |done];
    destruct (sign_total y z Hy Hz) as [[| |] E2]; try done.
  - pose proof (sign_trans Eq x y z Hx Hy Hz E1 E2). congruence.
  - pose proof (sign_trans Lt y z x Hy Hz Hx E2 Ezx) as X.
    apply sign_sym in E1; [congruence|done..].
  - pose proof (sign_trans Lt z x y Hz Hx Hy Ezx E1) as X.
    apply sign_sym in E2; [congruence|done..].
  - pose proof (sign_trans Lt x y z Hx Hy Hz E1 E2). congruence.
Qed.

Lemma compare_total (x y : A) : x ∈ l -> y ∈ l -> exists n, c x y = Ok n.
Proof.
  intros Hx Hy. destruct (sign_total x y Hx Hy) as [s E].
  unfold sign in E. destruct (c x y); [eauto|discriminate].
Qed.

Lemma above_gt0 (x y : A) (n : jsnum) : c x y = Ok n -> above c x y = gt0 n.
Proof.
  intros E. unfold above, sign. rewrite E.
  destruct (gt0 n); [by apply bool_decide_eq_true_2|].
  apply bool_decide_eq_false_2. by destruct (lt0 n).
Qed.

(** Where [insertSorted] puts the new element: behind the elements it
    ranks above, before the first it does not. *)
Lemma insertSorted_place (x : A) (s : list A) :
  x ∈ l -> (forall y, y ∈ s -> y ∈ l) ->
  exists s1 s2,
    s = s1 ++ s2
    /\ insertSorted c x s = Ok (s1 ++ x :: s2)
    /\ Forall (fun y => above c x y = true) s1
    /\ match s2 with y :: _ => above c x y = false | [] => True end.
Proof.
  intros Hx. induction s as [|y rest IH]; intros Hs.
  - exists [], []. repeat split; constructor.
  - simpl. destruct (compare_total x y Hx) as [n E]; [apply Hs; by left|].
    rewrite E. cbn [bind]. pose proof (above_gt0 x y n E) as Ha.
    destruct (gt0 n).
    + destruct IH as (s1 & s2 & -> & Hi & H1 & H2).
      { intros z Hz. apply Hs. by right. }
      exists (y :: s1), s2. rewrite Hi. cbn [bind]. repeat split; [|done].
      by constructor.
    + exists [], (y :: rest). repeat split; [constructor|done].
Qed.

Lemma ranked_nil : ranked c [].
Proof. intros i j x y _ H. by rewrite lookup_nil in H. Qed.

Lemma ranked_cons (x : A) (s : list A) :
  ranked c (x :: s) <-> Forall (fun y => above c x y = false) s /\ ranked c s.
Proof.
  split.
  - intros H. split.
    + apply Forall_forall. intros y Hy. apply list_elem_of_lookup in Hy as [j Hj].
      apply (H 0%nat (S j) x y); [lia|done|done].
    + intros i j a b Hij Ha Hb. apply (H (S i) (S j) a b); [lia|done|done].
  - intros [Hall Hr] i j a b Hij Ha Hb.
    destruct j as [|j]; [lia|]. simpl in Hb.
    destruct i as [|i].
    + simpl in Ha. injection Ha as <-.
      rewrite Forall_forall in Hall. apply Hall. by eapply list_elem_of_lookup_2.
    + simpl in Ha. apply (Hr i j a b); [lia|done|done].
Qed.

Lemma ranked_app (s1 s2 : list A) :
  ranked c (s1 ++ s2)
  <-> ranked c s1 /\ ranked c s2
      /\ Forall (fun a => Forall (fun b => above c a b = false) s2) s1.
Proof.
  induction s1 as [|a s1 IH]; simpl.
  - split; [intros H; repeat split; [apply ranked_nil|done|constructor]|by intros (_ & H & _)].
  - rewrite !ranked_cons, IH, Forall_app, Forall_cons. tauto.
Qed.

Lemma sort_ranked (s : list A) :
  (forall y, y ∈ s -> y ∈ l) ->
  exists sorted,
    sort c s = Ok sorted
    /\ sorted ≡ₚ s
    /\ ranked c sorted
    /\ forall x, x ∈ l -> List.filter (tied c x) sorted = List.filter (tied c x) s.
Proof.
  induction s as [|x rest IH]; intros Hs.
  - exists []. simpl. repeat split; [done|apply ranked_nil].
  - destruct IH as (sorted & Hsort & Hperm & Hrank & Hstable).
    { intros y Hy. apply Hs. by right. }
    assert (Hx : x ∈ l) by (apply Hs; by left).
    assert (Hin : forall y, y ∈ sorted -> y ∈ l).
    { intros y Hy. apply Hs. right. by rewrite <- Hperm. }
    destruct (insertSorted_place x sorted Hx Hin) as (s1 & s2 & Heq & Hi & H1 & H2).
    exists (s1 ++ x :: s2). simpl. rewrite Hsort. cbn [bind].
    split; [done|]. subst sorted.
    apply ranked_app in Hrank as (Hr1 & Hr2 & Hr12).
    assert (Hin1 : forall y, y ∈ s1 -> y ∈ l).
    { intros y Hy. apply Hin. apply elem_of_app. by left. }
    assert (Hin2 : forall y, y ∈ s2 -> y ∈ l).
    { intros y Hy. apply Hin. apply elem_of_app. by right. }
    split; [|split].
    + rewrite <- Hperm. symmetry. apply Permutation_middle.
    + apply ranked_app. split; [done|]. split.
      * apply ranked_cons. split; [|done].
        destruct s2 as [|y0 s2]; [constructor|].
        apply ranked_cons in Hr2 as [Hy0 _].
        constructor; [done|].
        rewrite Forall_forall in Hy0 |- *. intros z Hz.
        apply (above_negtrans x y0 z); [done|apply Hin2; by left|apply Hin2; by right|done|].
        by apply Hy0.
      * rewrite Forall_forall in H1, Hr12 |- *. intros a Ha.
        constructor; [|by apply Hr12].
        apply above_asym; [done|by apply Hin1|by apply H1].
    + intros z Hz. rewrite <- (Hstable z Hz).
      rewrite !List.filter_app. cbn [List.filter].
      destruct (tied c z x) eqn:Ht; [|done].
      assert (Hnone : List.filter (tied c z) s1 = []).
      { apply filter_none. intros a Ha.
        destruct (tied c z a) eqn:Hta; [|done]. exfalso.
        assert (Hal : a ∈ l) by (by apply Hin1).
        rewrite Forall_forall in H1. specialize (H1 a Ha).
        unfold tied in Ht, Hta.
        apply andb_prop in Ht as [Ht1 Ht2]. apply andb_prop in Hta as [Hta1 Hta2].
        apply negb_true_iff in Ht1, Ht2, Hta1, Hta2.
        pose proof (above_negtrans x z a Hx Hz Hal Ht2 Hta1). congruence. }
      rewrite Hnone. done.
Qed.

End RankingFacts.

Lemma insertSorted_total {A} (cmp : A -> A -> result jsnum) (x : A) (l : list A) :
  (forall y, y ∈ l -> exists c, cmp x y = Ok c) ->
  exists r, insertSorted cmp x l = Ok r.
Proof.
  induction l as [|y rest IH]; intros Hc; simpl; [eauto|].
  destruct (Hc y) as [c ->]; [by left|]. simpl.
  destruct (gt0 c); [|eauto].
  destruct IH as [r ->]; [|simpl; eauto].
  intros z Hz. apply Hc. by right.
Qed.

Lemma sort_total {A} (cmp : A -> A -> result jsnum) (l : list A) :
  (forall a b, a ∈ l -> b ∈ l -> exists c, cmp a b = Ok c) ->
  exists r, sort cmp l = Ok r.
Proof.
  induction l as [|x rest IH]; intros Hc; simpl; [eauto|].
  destruct IH as [sorted Hs].
  { intros a b Ha Hb. apply Hc; by right. }
  rewrite Hs. simpl. apply insertSorted_total.
  intros y Hy. apply Hc; [by left|].
  right. by rewrite <- (sort_perm _ _ _ Hs).
Qed.

Lemma header_field_read (headers : list jsstring) (line F : jsstring) :
  F ∈ headers -> exists s, Exact.get (rowOf headers line) F = Exact.Own (JString s).
Proof.
  intros HF.
  destruct (forEachHeader_field headers 0 (CsvUtils.parseCsvLine line) ∅ F HF)
    as [i [_ Hv]].
  unfold Exact.get, rowOf, makeRow. rewrite Hv. eauto.
Qed.

Lemma compareValue_string_ok (collate : jsstring -> jsstring -> Z) (a : jsstring)
    (b : Exact.property) :
  exists c, Exact.compareValue collate (Exact.Own (JString a)) b = Ok c.
Proof. unfold Exact.compareValue. destruct (_ && _); eauto. Qed.

Lemma select_window (collate : jsstring -> jsstring -> Z) (fields : list jsstring)
    (flt : list csvDataFilter.predicate) (F : jsstring) (k m : Z) (csvContent : jsstring) :
  0 <= k -> 0 <= m ->
  select collate fields flt F k m csvContent
  = (let* sorted := sort (byField collate F) (matching flt csvContent) in
     Ok (map (shown fields) (take (Z.to_nat m) (drop (Z.to_nat k) sorted)))).
Proof.
  intros Hk Hm. unfold select, csvDb.offset, csvDb.limit.
  rewrite (proj2 (Z.ltb_ge k 0)) by lia. cbn [bind].
  rewrite (proj2 (Z.ltb_ge m 0)) by lia. cbn [bind].
  unfold Exact.fetch.
  destruct (decide _) as [E|_]; [by apply split_not_empty in E|].
  rewrite fetch_scan_spec.
  unfold Exact.sortRecords. cbn.
  change (List.filter (csvDataFilter.test flt) _) with (matching flt csvContent).
  rewrite (sort_ext _ (byField collate F)).
  2:{ intros a b. unfold byField. by destruct (Exact.compareValue _ _ _). }
  destruct (sort (byField collate F) (matching flt csvContent)) as [sorted|e];
    cbn [bind]; [|done].
  rewrite slice_window by done.
  by destruct fields.
Qed.



(** The pages themselves: by number on a numeric column, 9 before 10
    before 100. *)
Example select_pages :
  let body := str "n,v" ++ LF :: str "10,a" ++ LF :: str "9,b" ++ LF :: str "100,c" in
  select naturalOrder [str "n"] [] (str "n") 1 2 body
  = Ok [<[str "n" := Exact.Own (JString (str "10"))]> ∅;
        <[str "n" := Exact.Own (JString (str "100"))]> ∅]
  /\ select naturalOrder [] [] (str "n") 0 1 body
     = Ok [<[str "n" := Exact.Own (JString (str "9"))]>
             (<[str "v" := Exact.Own (JString (str "b"))]> ∅)]
  /\ select naturalOrder [str "n"] [] (str "n") 3 2 body = Ok []
  /\ select naturalOrder [str "n"] [] (str "v") 0 1 body
     = Ok [<[str "n" := Exact.Own (JString (str "10"))]> ∅]
  /\ select naturalOrder [str "n"] [] (str "zz") 0 1 body = Throw TypeError.
Proof. vm_compute. repeat split. Qed.

(** ** Two operations on one table *)

Lemma step_read (sha : jsstring -> jsstring) (h : csvModifyHandler.handler)
    (path c : jsstring) (st : gmap jsstring jsstring) (o : csvModifyHandler.outcome) :
  st !! path = Some c ->
  csvModifyHandler.execute h c = Ok o ->
  step sha h path st Started = (st, Computed o).
Proof.
  intros Hc Ho. unfold step, getFileContent, getFileInfo. rewrite Hc. cbn.
  by rewrite Ho.
Qed.

Lemma step_probe (sha : jsstring -> jsstring) (h : csvModifyHandler.handler)
    (path c : jsstring) (st : gmap jsstring jsstring) (o : csvModifyHandler.outcome) :
  st !! path = Some c ->
  step sha h path st (Computed o) = (st, Probed o (sha c)).
Proof. intros Hc. unfold step, getFileInfo. by rewrite Hc. Qed.

Lemma step_write (sha : jsstring -> jsstring) (h : csvModifyHandler.handler)
    (path c : jsstring) (st : gmap jsstring jsstring) (o : csvModifyHandler.outcome) :
  st !! path = Some c ->
  step sha h path st (Probed o (sha c))
  = (<[path := csvModifyHandler.csvContent o]> st,
     Returned (csvModifyHandler.affectedCount o)).
Proof.
  intros Hc. unfold step, putFile. rewrite Hc.
  by rewrite decide_True by done.
Qed.

(** Served back to back, the two requests of the write are [updateFile]. *)
Lemma write_steps_are_updateFile (sha : jsstring -> jsstring)
    (h : csvModifyHandler.handler) (path : jsstring) (st : gmap jsstring jsstring)
    (o : csvModifyHandler.outcome) :
  (let '(st1, t1) := step sha h path st (Computed o) in step sha h path st1 t1)
  = match updateFile sha path (csvModifyHandler.csvContent o) st with
    | Ok st' => (st', Returned (csvModifyHandler.affectedCount o))
    | Throw e => (st, Failed e)
    end.
Proof.
  unfold step, updateFile, getFileInfo.
  destruct (st !! path) as [c|] eqn:Hc; cbn; [|done].
  by destruct (putFile sha path (csvModifyHandler.csvContent o) (sha c) st).
Qed.

(** C9. For every pair of mutating operations on one table, whatever the
    hash behind the version token: the token an operation hands to the
    conditional write is the one of a probe made at write time, so when
    the first operation writes between the second's read and the second's
    probe, the second holds the token of the first's new body, its write
    is accepted, both operations return their counts, and the table ends
    as the second's result computed from the body both had read: the
    first's changes are gone. *)
Theorem lost_update (sha : jsstring -> jsstring) (hA hB : csvModifyHandler.handler)
    (path c0 : jsstring) (st : gmap jsstring jsstring) :
  let w0 := {| files := <[path := c0]> st; first := Started; second := Started |} in
  exists oA oB,
    csvModifyHandler.execute hA c0 = Ok oA
    /\ csvModifyHandler.execute hB c0 = Ok oB
    /\ run sha hA hB path [true; false; true; true; false] w0
       = {| files := <[path := csvModifyHandler.csvContent oA]> st;
            first := Returned (csvModifyHandler.affectedCount oA);
            second := Probed oB (sha (csvModifyHandler.csvContent oA)) |}
    /\ run sha hA hB path [true; false; true; true; false; false] w0
       = {| files := <[path := csvModifyHandler.csvContent oB]> st;
            first := Returned (csvModifyHandler.affectedCount oA);
            second := Returned (csvModifyHandler.affectedCount oB) |}.
Proof.
  intros w0. subst w0.
  eexists. eexists.
  split; [apply execute_spec|]. split; [apply execute_spec|].
  set (oA := {| csvModifyHandler.affectedCount := _; csvModifyHandler.csvContent := _ |}).
  set (oB := {| csvModifyHandler.affectedCount := _; csvModifyHandler.csvContent := _ |}).
  assert (H0 : (<[path := c0]> st : gmap jsstring jsstring) !! path = Some c0)
    by apply lookup_insert_eq.
  assert (HA : (<[path := csvModifyHandler.csvContent oA]> (<[path := c0]> st)
                : gmap jsstring jsstring) !! path
               = Some (csvModifyHandler.csvContent oA))
    by apply lookup_insert_eq.
  assert (Hfive :
    run sha hA hB path [true; false; true; true; false]
      {| files := <[path := c0]> st; first := Started; second := Started |}
    = {| files := <[path := csvModifyHandler.csvContent oA]> st;
         first := Returned (csvModifyHandler.affectedCount oA);
         second := Probed oB (sha (csvModifyHandler.csvContent oA)) |}).
  { unfold run. cbn [fold_left serve files first second].
    rewrite (step_read sha hA path c0 _ oA H0 (execute_spec _ _)).
    cbn [files first second].
    rewrite (step_read sha hB path c0 _ oB H0 (execute_spec _ _)).
    cbn [files first second].
    rewrite (step_probe sha hA path c0 _ oA H0).
    cbn [files first second].
    rewrite (step_write sha hA path c0 _ oA H0).
    cbn [files first second].
    rewrite (step_probe sha hB path _ _ oB HA).
    by rewrite insert_insert_eq. }
  split; [exact Hfive|].
  change [true; false; true; true; false; false]
    with ([true; false; true; true; false] ++ [false]).
  unfold run in *. rewrite fold_left_app, Hfive.
  cbn [fold_left serve files first second].
  rewrite (step_write sha hB path (csvModifyHandler.csvContent oA) _ oB).
  - by rewrite insert_insert_eq.
  - apply lookup_insert_eq.
Qed.

(** When the first operation writes between the second's probe and the
    second's write, the second's token is stale and its write is refused:
    the guard covers that window only. *)
Lemma write_inside_window_conflicts (sha : jsstring -> jsstring)
    (hA hB : csvModifyHandler.handler) (path c0 : jsstring)
    (st : gmap jsstring jsstring) (oA : csvModifyHandler.outcome) :
  csvModifyHandler.execute hA c0 = Ok oA ->
  sha (csvModifyHandler.csvContent oA) <> sha c0 ->
  second (run sha hA hB path [true; false; true; false; true; false]
            {| files := <[path := c0]> st; first := Started; second := Started |})
  = Failed (ApiError 409).
Proof.
  intros HA Hsha.
  assert (H0 : (<[path := c0]> st : gmap jsstring jsstring) !! path = Some c0)
    by apply lookup_insert_eq.
  unfold run. cbn [fold_left serve files first second].
  rewrite (step_read sha hA path c0 _ oA H0 HA). cbn [files first second].
  rewrite (step_read sha hB path c0 _ _ H0 (execute_spec _ _)). cbn [files first second].
  rewrite (step_probe sha hA path c0 _ oA H0). cbn [files first second].
  rewrite (step_probe sha hB path c0 _ _ H0). cbn [files first second].
  rewrite (step_write sha hA path c0 _ oA H0). cbn [files first second].
  unfold step, putFile. rewrite lookup_insert_eq.
  by rewrite decide_False.
Qed.

(** Two inserts racing on a one-column table: the row of the first is not
    in the final body. *)
Example lost_insert :
  let row v := <[str "k" := JString (str v)]> (∅ : record) in
  files (run (fun c => c)
           (csvDb.insertHandler [row "a"]) (csvDb.insertHandler [row "b"])
           (str "db/t.csv")
           [true; false; true; true; false; false]
           {| files := <[str "db/t.csv" := str "k"]> ∅;
              first := Started; second := Started |})
    !! str "db/t.csv"
  = Some (str "k" ++ LF :: str "b").
Proof. vm_compute. reflexivity. Qed.

(** ** The codec: lines *)

Lemma split_plain (sep : ascii) (l : jsstring) :
  sep ∉ l -> split sep l = [l].
Proof.
  induction l as [|c rest IH]; intros Hl; simpl; [done|].
  apply not_elem_of_cons in Hl as [Hc Hrest].
  rewrite decide_False by done. by rewrite IH.
Qed.

Lemma split_app (sep : ascii) (l rest : jsstring) :
  sep ∉ l -> split sep (l ++ sep :: rest) = l :: split sep rest.
Proof.
  induction l as [|c l IH]; intros Hl; simpl.
  - by rewrite decide_True.
  - apply not_elem_of_cons in Hl as [Hc Hl].
    rewrite decide_False by done. by rewrite IH.
Qed.

Lemma split_join (sep : ascii) (lines : list jsstring) :
  lines <> [] -> Forall (fun l => sep ∉ l) lines -> split sep (join sep lines) = lines.
Proof.
  induction lines as [|l lines IH]; intros Hne Hall; [done|].
  apply Forall_cons in Hall as [Hl Hall].
  destruct lines as [|l' lines].
  - simpl. by apply split_plain.
  - change (join sep (l :: l' :: lines)) with (l ++ sep :: join sep (l' :: lines)).
    rewrite split_app by done. by rewrite IH.
Qed.

Lemma join_free (sep c : ascii) (parts : list jsstring) :
  c <> sep -> Forall (fun p => c ∉ p) parts -> c ∉ join sep parts.
Proof.
  intros Hc. induction parts as [|p parts IH]; intros Hall.
  - apply not_elem_of_nil.
  - apply Forall_cons in Hall as [Hp Hall].
    destruct parts as [|p' parts]; [done|].
    change (join sep (p :: p' :: parts)) with (p ++ sep :: join sep (p' :: parts)).
    rewrite elem_of_app, elem_of_cons. intros [?|[?|?]]; [done|done|].
    by apply IH.
Qed.

(** ** The codec: fields *)

Lemma replacePair_id (c1 c2 r : ascii) (s : jsstring) :
  (forall pre post, s <> pre ++ c1 :: c2 :: post) -> replacePair c1 c2 r s = s.
Proof.
  induction s as [|a rest IH]; intros Hs; [done|].
  destruct rest as [|b rest']; [done|].
  cbn [replacePair].
  destruct (decide (a = c1 /\ b = c2)) as [[-> ->]|Hne].
  - by destruct (Hs [] rest').
  - f_equal. apply IH. intros pre post Heq. apply (Hs (a :: pre) post).
    by rewrite Heq.
Qed.

Lemma escapeFree_no_pair (s : jsstring) (c : ascii) :
  escapeFree s = true -> c = QUOTE \/ c = COMMA ->
  forall pre post, s <> pre ++ BACKSLASH :: c :: post.
Proof.
  intros Hs Hc pre. revert s Hs.
  induction pre as [|p pre IH]; intros s Hs post Heq; subst s.
  - cbn in Hs. rewrite bool_decide_eq_true_2 in Hs by done.
    rewrite (bool_decide_eq_true_2 _ Hc) in Hs. done.
  - cbn [app escapeFree] in Hs. apply andb_true_iff in Hs as [_ Hs].
    by eapply IH.
Qed.

Lemma unescapeField_id (s : jsstring) :
  escapeFree s = true -> CsvUtils.unescapeField s = s.
Proof.
  intros Hs. unfold CsvUtils.unescapeField.
  rewrite (replacePair_id BACKSLASH QUOTE QUOTE s)
    by (apply escapeFree_no_pair; auto).
  apply replacePair_id. apply escapeFree_no_pair; auto.
Qed.

Lemma escapeFree_plain (s : jsstring) :
  QUOTE ∉ s -> COMMA ∉ s -> escapeFree s = true.
Proof.
  induction s as [|a rest IH]; intros Hq Hc; [done|].
  apply not_elem_of_cons in Hq as [_ Hq]. apply not_elem_of_cons in Hc as [_ Hc].
  cbn [escapeFree]. rewrite IH by done. rewrite andb_true_r.
  destruct rest as [|b rest']; [by rewrite andb_false_r|].
  apply not_elem_of_cons in Hq as [Hq _]. apply not_elem_of_cons in Hc as [Hc _].
  rewrite (bool_decide_eq_false_2 (b = QUOTE \/ b = COMMA)) by (intros [?|?]; done).
  by rewrite andb_false_r.
Qed.

(** A field without quote or comma is read as it stands. *)
Lemma parseLoop_plain (t rest current : jsstring) (result : list jsstring) :
  QUOTE ∉ t -> COMMA ∉ t ->
  CsvUtils.parseLoop (t ++ rest) false current result
  = CsvUtils.parseLoop rest false (current ++ t) result.
Proof.
  revert current. induction t as [|c t IH]; intros current Hq Hc.
  - by rewrite app_nil_r.
  - apply not_elem_of_cons in Hq as [Hq1 Hq]. apply not_elem_of_cons in Hc as [Hc1 Hc].
    cbn [app CsvUtils.parseLoop].
    rewrite !decide_False by done.
    rewrite IH by done. by rewrite <- app_assoc.
Qed.

(** Inside quotes, a field with its quotes doubled is read back up to the
    closing quote, provided no quote follows the closing one. *)
Lemma parseLoop_quoted (t rest current : jsstring) (result : list jsstring) :
  match rest with c :: _ => c <> QUOTE | [] => True end ->
  CsvUtils.parseLoop (doubleQuotes t ++ QUOTE :: rest) true current result
  = CsvUtils.parseLoop rest false (current ++ t) result.
Proof.
  intros Hrest. revert current. induction t as [|c t IH]; intros current.
  - cbn [doubleQuotes flat_map app CsvUtils.parseLoop].
    rewrite decide_True by done. rewrite app_nil_r.
    destruct rest as [|c' rest']; [done|]. by rewrite decide_False.
  - unfold doubleQuotes. cbn [flat_map]. fold (doubleQuotes t).
    destruct (decide (c = QUOTE)) as [->|Hc].
    + cbn [app CsvUtils.parseLoop]. rewrite !decide_True by done.
      rewrite IH. by rewrite <- app_assoc.
    + cbn [app CsvUtils.parseLoop]. rewrite decide_False by done.
      rewrite IH. by rewrite <- app_assoc.
Qed.

Lemma includes_false (c : ascii) (s : jsstring) : includes c s = false <-> c ∉ s.
Proof. unfold includes. by rewrite bool_decide_eq_false. Qed.

(** A written field is read back as its text when the character after it,
    if any, is not a quote. *)
Lemma field_read_back (v : jsval) (rest current : jsstring) (result : list jsstring) :
  match rest with c :: _ => c <> QUOTE | [] => True end ->
  CsvUtils.parseLoop (CsvUtils.escapeCsvField v ++ rest) false current result
  = CsvUtils.parseLoop rest false (current ++ fieldText v) result.
Proof.
  intros Hrest. unfold CsvUtils.escapeCsvField.
  destruct v as [| |s]; cbn [isNullish ToString fieldText app];
    try by rewrite app_nil_r.
  destruct (includes COMMA s) eqn:Hc;
    [|destruct (includes QUOTE s) eqn:Hq; [|destruct (includes LF s) eqn:Hl]];
    cbn [orb].
  1,2,3: cbn [app CsvUtils.parseLoop]; rewrite decide_True by done;
         rewrite <- app_assoc; cbn [app]; by apply parseLoop_quoted.
  apply parseLoop_plain; by apply includes_false.
Qed.

Lemma join_read_back {A} (enc text : A -> jsstring) (items : list A) :
  items <> [] ->
  Forall (fun x => forall rest current result,
            match rest with c :: _ => c <> QUOTE | [] => True end ->
            CsvUtils.parseLoop (enc x ++ rest) false current result
            = CsvUtils.parseLoop rest false (current ++ text x) result) items ->
  forall result,
    CsvUtils.parseLoop (join COMMA (map enc items)) false [] result
    = result ++ map (fun x => CsvUtils.unescapeField (text x)) items.
Proof.
  induction items as [|x items IH]; intros Hne Hall result; [done|].
  apply Forall_cons in Hall as [Hx Hall].
  destruct items as [|y items].
  - cbn [map join]. rewrite <- (app_nil_r (enc x)).
    by rewrite Hx.
  - change (join COMMA (map enc (x :: y :: items)))
      with (enc x ++ COMMA :: join COMMA (map enc (y :: items))).
    rewrite Hx by done.
    cbn [CsvUtils.parseLoop]. rewrite decide_False by done.
    rewrite decide_True by done.
    rewrite IH by done. cbn [app map]. by rewrite <- app_assoc.
Qed.

(** A line of written values is parsed into their texts, unescaped. *)
Lemma line_read_back (values : list jsval) :
  values <> [] ->
  CsvUtils.parseCsvLine (join COMMA (map CsvUtils.escapeCsvField values))
  = map (fun v => CsvUtils.unescapeField (fieldText v)) values.
Proof.
  intros Hne. unfold CsvUtils.parseCsvLine.
  rewrite (join_read_back CsvUtils.escapeCsvField fieldText) by
    (try done; apply Forall_forall; intros v _ rest current result;
     apply field_read_back).
  done.
Qed.

Lemma map_fixed {A} (f : A -> A) (l : list A) :
  Forall (fun x => f x = x) l -> map f l = l.
Proof.
  induction 1 as [|x l Hx _ IH]; simpl; [done|]. by rewrite Hx, IH.
Qed.

(** A header of names without comma or quote is parsed into its names. *)
Lemma header_read_back (headers : list jsstring) :
  headers <> [] ->
  Forall (fun h => (QUOTE ∉ h) /\ (COMMA ∉ h)) headers ->
  CsvUtils.parseCsvLine (join COMMA headers) = headers.
Proof.
  intros Hne Hall. unfold CsvUtils.parseCsvLine.
  replace (join COMMA headers) with (join COMMA (map id headers))
    by (by rewrite map_id).
  rewrite (join_read_back id id).
  - cbn [app]. apply map_fixed.
    apply (Forall_impl _ _ _ Hall). intros h [Hq Hc].
    apply unescapeField_id. by apply escapeFree_plain.
  - done.
  - apply (Forall_impl _ _ _ Hall). intros h [Hq Hc] rest current result _.
    by apply parseLoop_plain.
Qed.

(** ** The codec: tables *)

Lemma encode_lines (headers : list jsstring) (records : list record) :
  encode headers records
  = join LF (join COMMA headers :: map (recordLine headers) records).
Proof.
  unfold encode, csvModifyHandler.serialize. by rewrite map_map.
Qed.

Lemma doubleQuotes_free (c : ascii) (s : jsstring) :
  c <> QUOTE -> c ∉ s -> c ∉ doubleQuotes s.
Proof.
  intros Hc. induction s as [|a s IH]; intros Hs; [done|].
  apply not_elem_of_cons in Hs as [Ha Hs].
  unfold doubleQuotes. cbn [flat_map]. fold (doubleQuotes s).
  destruct (decide (a = QUOTE)); cbn [app];
    rewrite ?not_elem_of_cons; auto.
Qed.

Lemma escapeCsvField_free (c : ascii) (v : jsval) :
  c <> QUOTE -> c ∉ fieldText v -> c ∉ CsvUtils.escapeCsvField v.
Proof.
  intros Hc Hv. unfold CsvUtils.escapeCsvField.
  destruct v as [| |s]; cbn [isNullish ToString fieldText] in *;
    try apply not_elem_of_nil.
  destruct (_ || _); [|done].
  rewrite not_elem_of_cons, not_elem_of_app, not_elem_of_cons.
  repeat split; auto using doubleQuotes_free, not_elem_of_nil.
Qed.

Section HeaderShaped.
Variable headers : list jsstring.
Variable r : record.
Hypothesis shaped : headerShaped headers r.

Lemma shaped_field (h : jsstring) :
  h ∈ headers -> exists s, r !! h = Some (JString s) /\ safeText s.
Proof. intros Hh. specialize (shaped h). by rewrite decide_True in shaped. Qed.

Lemma shaped_prepared :
  Forall (fun v => exists s, v = JString s /\ safeText s)
    (csvModifyHandler.prepareRecord headers r).
Proof.
  unfold csvModifyHandler.prepareRecord. apply Forall_forall. intros v Hv.
  apply list_elem_of_fmap in Hv as [h [-> Hh]].
  destruct (shaped_field h Hh) as [s [Hs Hsafe]].
  unfold getField. rewrite Hs. cbn. eauto.
Qed.

Lemma shaped_line_free : LF ∉ recordLine headers r.
Proof.
  unfold recordLine. apply join_free; [done|].
  apply Forall_forall. intros t Ht.
  apply list_elem_of_fmap in Ht as [v [-> Hv]].
  pose proof shaped_prepared as Hp.
  rewrite Forall_forall in Hp. destruct (Hp v Hv) as [s [-> [Hlf _]]].
  by apply escapeCsvField_free.
Qed.

Lemma shaped_line_parsed :
  headers <> [] ->
  CsvUtils.parseCsvLine (recordLine headers r)
  = map fieldText (csvModifyHandler.prepareRecord headers r).
Proof.
  intros Hne. unfold recordLine.
  rewrite line_read_back.
  - apply map_ext_Forall.
    apply (Forall_impl _ _ _ shaped_prepared). intros v [s [-> [_ Hs]]].
    by apply unescapeField_id.
  - unfold csvModifyHandler.prepareRecord. by destruct headers.
Qed.

Lemma shaped_row : headers <> [] -> rowOf headers (recordLine headers r) = r.
Proof.
  intros Hne. unfold rowOf. rewrite shaped_line_parsed by done.
  apply map_eq. intros h. unfold makeRow.
  destruct (decide (h ∈ headers)) as [Hh|Hh].
  - destruct (forEachHeader_field headers 0
                (map fieldText (csvModifyHandler.prepareRecord headers r)) ∅ h Hh)
      as [i [Hi ->]].
    destruct (shaped_field h Hh) as [s [Hs _]]. rewrite Hs.
    cbn [Nat.add]. unfold csvModifyHandler.prepareRecord.
    rewrite !list_lookup_fmap, Hi. cbn.
    unfold getField. by rewrite Hs.
  - rewrite forEachHeader_other by done.
    specialize (shaped h). by rewrite decide_False in shaped.
Qed.

End HeaderShaped.

Lemma MAX_VALUE_large : 2 ^ 32 <= MAX_VALUE.
Proof. by vm_compute. Qed.

Lemma slice_all {A} (l : list A) :
  Z.of_nat (length l) < 2 ^ 32 -> slice 0 (0 + MAX_VALUE) l = l.
Proof.
  intros Hlen. pose proof MAX_VALUE_large as Hmax. unfold slice.
  rewrite Z.add_0_l.
  rewrite (proj2 (Z.ltb_ge 0 0)) by lia.
  rewrite (proj2 (Z.ltb_ge MAX_VALUE 0)) by lia.
  rewrite (Z.min_l 0) by lia. rewrite (Z.min_r MAX_VALUE) by lia.
  rewrite Z.sub_0_r, Nat2Z.id. cbn [Z.to_nat drop]. by rewrite firstn_all.
Qed.

Lemma filter_all {A} (p : A -> bool) (l : list A) :
  Forall (fun x => p x = true) l -> List.filter p l = l.
Proof.
  induction 1 as [|x l Hx _ IH]; simpl; [done|]. by rewrite Hx, IH.
Qed.

Lemma decode_rows (csvContent : jsstring) :
  Z.of_nat (length (dataRows csvContent)) < 2 ^ 32 ->
  decode csvContent = Ok (dataRows csvContent).
Proof.
  intros Hlen. unfold decode, csvDataFetcher.fetch.
  destruct (decide _) as [E|_]; [by apply split_not_empty in E|].
  rewrite fetch_scan_spec. cbn.
  rewrite (filter_all (csvDataFilter.test [])) by (by apply Forall_forall).
  by rewrite slice_all.
Qed.





(** ** What insert writes *)

(** Inserting records into a table that holds only its header writes the
    encoding of the header and the records, and counts the records. *)
Lemma insert_writes_encoding (headers : list jsstring) (records : list record) :
  headers <> [] ->
  Forall plainName headers ->
  csvModifyHandler.execute (csvDb.insertHandler records) (join COMMA headers)
  = Ok {| csvModifyHandler.affectedCount := length records;
          csvModifyHandler.csvContent := encode headers records |}.
Proof.
  intros Hne Hnames. rewrite execute_spec.
  assert (Hsplit : split LF (join COMMA headers) = [join COMMA headers]).
  { apply split_plain, join_free; [done|].
    apply (Forall_impl _ _ _ Hnames). by intros h (_ & _ & Hlf). }
  assert (Hheaders : headersOf (join COMMA headers) = headers).
  { unfold headersOf. rewrite Hsplit. cbn [nth].
    apply header_read_back; [done|].
    apply (Forall_impl _ _ _ Hnames). by intros h (Hc & Hq & _). }
  unfold newRows, dataLines. rewrite Hheaders, Hsplit. reflexivity.
Qed.

(** ** The regular expression of like *)

Lemma replaceChar_app (c : ascii) (r a b : jsstring) :
  replaceChar c r (a ++ b) = replaceChar c r a ++ replaceChar c r b.
Proof. unfold replaceChar. apply flat_map_app. Qed.

(** Two distinct character constants. *)
Ltac chars_differ := let X := fresh in intro X; vm_compute in X; discriminate X.

(** The source text written for one character of the pattern. *)
Lemma likeSource_char (c : ascii) :
  replaceChar "_"%char (str ".")
    (replaceChar "%"%char (str ".*") (if regexSpecial c then [BACKSLASH; c] else [c]))
  = if regexSpecial c then [BACKSLASH; c]
    else if decide (c = "%"%char) then str ".*"
    else if decide (c = "_"%char) then str "."
    else [c].
Proof.
  destruct (regexSpecial c) eqn:Hs.
  - assert (Hp : c <> "%"%char) by (intros ->; discriminate Hs).
    assert (Hu : c <> "_"%char) by (intros ->; discriminate Hs).
    unfold replaceChar. cbn [flat_map app].
    rewrite (decide_False (P := BACKSLASH = "%"%char)) by chars_differ.
    rewrite (decide_False (P := c = "%"%char)) by done.
    cbn [flat_map app].
    rewrite (decide_False (P := BACKSLASH = "_"%char)) by chars_differ.
    by rewrite (decide_False (P := c = "_"%char)) by done.
  - unfold replaceChar. cbn [flat_map app].
    destruct (decide (c = "%"%char)) as [->|Hp]; [reflexivity|].
    cbn [flat_map app].
    by destruct (decide (c = "_"%char)).
Qed.

Lemma likeSource_cons (c : ascii) (pattern : jsstring) :
  replaceChar "_"%char (str ".")
    (replaceChar "%"%char (str ".*")
       (flat_map (fun c => if regexSpecial c then [BACKSLASH; c] else [c]) (c :: pattern)))
  = (if regexSpecial c then [BACKSLASH; c]
     else if decide (c = "%"%char) then str ".*"
     else if decide (c = "_"%char) then str "."
     else [c])
    ++ replaceChar "_"%char (str ".")
         (replaceChar "%"%char (str ".*")
            (flat_map (fun c => if regexSpecial c then [BACKSLASH; c] else [c]) pattern)).
Proof. cbn [flat_map]. by rewrite !replaceChar_app, likeSource_char. Qed.

Lemma parseAtoms_like (pattern : jsstring) :
  let body p :=
    replaceChar "_"%char (str ".")
      (replaceChar "%"%char (str ".*")
         (flat_map (fun c => if regexSpecial c then [BACKSLASH; c] else [c]) p))
    ++ str "$" in
  parseAtoms (body pattern) = Some (likeAtoms pattern)
  /\ match body pattern with
     | c :: _ => c <> "*"%char
     | [] => False
     end.
Proof.
  intros body.
  induction pattern as [|c pattern [IH Hhead]]; [by split|].
  unfold body in *. rewrite likeSource_cons.
  set (rest := replaceChar _ _ _ ++ str "$") in *.
  rewrite <- app_assoc. fold rest.
  destruct (regexSpecial c) eqn:Hs.
  - assert (Hp : c <> "%"%char) by (intros ->; discriminate Hs).
    assert (Hu : c <> "_"%char) by (intros ->; discriminate Hs).
    split; [|discriminate].
    cbn [app parseAtoms]. rewrite decide_True by done.
    rewrite IH. cbn. by rewrite !decide_False by done.
  - destruct (decide (c = "%"%char)) as [->|Hp].
    + split; [|discriminate].
      cbn [str list_ascii_of_string app parseAtoms].
      rewrite (decide_False (P := "."%char = BACKSLASH)) by discriminate.
      rewrite !decide_True by done. by rewrite IH.
    + destruct (decide (c = "_"%char)) as [->|Hu].
      * split; [|discriminate].
        cbn [str list_ascii_of_string app parseAtoms].
        rewrite (decide_False (P := "."%char = BACKSLASH)) by discriminate.
        rewrite (decide_True (P := "."%char = "."%char)) by done.
        destruct rest as [|q rest']; [done|].
        rewrite (decide_False (P := q = "*"%char)) by done.
        rewrite IH. cbn. rewrite decide_False by discriminate.
        by rewrite decide_True.
      * assert (Hnb : c <> BACKSLASH) by (intros ->; discriminate Hs).
        assert (Hnd : c <> "."%char) by (intros ->; discriminate Hs).
        assert (Hn4 : c <> "$"%char) by (intros ->; discriminate Hs).
        assert (Hns : c <> "*"%char) by (intros ->; discriminate Hs).
        split; [|done].
        cbn [app parseAtoms]. rewrite !decide_False by done.
        rewrite Hs, IH. cbn. by rewrite !decide_False by done.
Qed.

(** The regular expression [like] builds always compiles, to the anchored
    pattern in which a percent sign is any run, an underscore any single
    character and every other character itself. *)
Lemma like_compiles (pattern : jsstring) :
  compileRegExp (csvDataFilter.likeSource pattern) = Some (likeAtoms pattern).
Proof.
  unfold csvDataFilter.likeSource, compileRegExp. cbn [str list_ascii_of_string app].
  rewrite decide_True by done. apply parseAtoms_like.
Qed.

(** ** Blank lines *)

(** With two columns or more, the line of a record holds a comma and is
    not blank. *)
Lemma two_columns_never_blank (headers : list jsstring) (r : record) :
  (2 <= length headers)%nat -> isBlank (recordLine headers r) = false.
Proof.
  intros Hlen. unfold recordLine, csvModifyHandler.prepareRecord.
  destruct headers as [|h1 [|h2 rest]]; simpl in Hlen; try lia.
  cbn [map].
  match goal with
  | |- isBlank (join COMMA (?x :: ?y :: ?l)) = false =>
      change (join COMMA (x :: y :: l)) with (x ++ COMMA :: join COMMA (y :: l))
  end.
  unfold isBlank. rewrite forallb_app. cbn [forallb].
  replace (isWhiteSpace COMMA) with false by reflexivity.
  by rewrite andb_false_r.
Qed.

(** ** The rows a mutation writes *)

(** The number of fields of a parsed line. *)
Lemma parseLoop_count (n : nat) :
  forall (line : jsstring) (inQuotes : bool) (current : jsstring) (result : list jsstring),
    (length line <= n)%nat ->
    (length result + 1 <= length (CsvUtils.parseLoop line inQuotes current result)
     <= length result + 1 + commas line)%nat.
Proof.
  induction n as [|n IH]; intros line inQuotes current result Hn.
  - destruct line; [|simpl in Hn; lia]. cbn. rewrite length_app. simpl. lia.
  - destruct line as [|c rest]; [cbn; rewrite length_app; simpl; lia|].
    simpl in Hn.
    assert (Hcommas : (commas rest <= commas (c :: rest))%nat).
    { unfold commas. simpl. destruct (bool_decide (c = COMMA)); simpl; lia. }
    cbn [CsvUtils.parseLoop]. destruct inQuotes.
    + destruct (decide (c = QUOTE)) as [->|Hc].
      * destruct rest as [|c2 rest2].
        -- specialize (IH [] false current result ltac:(simpl; lia)). lia.
        -- destruct (decide (c2 = QUOTE)) as [->|Hc2].
           ++ specialize (IH rest2 true (current ++ [QUOTE]) result ltac:(simpl in *; lia)).
              assert ((commas rest2 <= commas (QUOTE :: rest2))%nat).
              { unfold commas. simpl. destruct (bool_decide (QUOTE = COMMA)); simpl; lia. }
              lia.
           ++ specialize (IH (c2 :: rest2) false current result ltac:(simpl in *; lia)). lia.
      * specialize (IH rest true (current ++ [c]) result ltac:(lia)). lia.
    + destruct (decide (c = QUOTE)) as [->|Hc].
      * specialize (IH rest true current result ltac:(lia)). lia.
      * destruct (decide (c = COMMA)) as [->|Hcomma].
        -- specialize (IH rest false [] (result ++ [CsvUtils.unescapeField current])
                         ltac:(lia)).
           rewrite length_app in IH. simpl in IH.
           assert ((commas (COMMA :: rest) = S (commas rest))%nat) by reflexivity.
           lia.
        -- specialize (IH rest false (current ++ [c]) result ltac:(lia)). lia.
Qed.

Lemma prepareRecord_written (headers : list jsstring) (r : record) :
  csvModifyHandler.prepareRecord headers r = written headers r.
Proof.
  unfold csvModifyHandler.prepareRecord, written. apply map_ext. intros header.
  unfold getField. by destruct (r !! header) as [[| |s]|].
Qed.

Lemma newRows_written (h : csvModifyHandler.handler) (csvContent : jsstring) :
  newRows h csvContent = rowsWritten h csvContent.
Proof.
  unfold newRows, rowsWritten. f_equal.
  - apply flat_map_ext. intros line. unfold emitted, rawValues.
    destruct (csvModifyHandler.shouldHandleData h _); [|done].
    destruct (csvModifyHandler.handleData h _); [|done].
    by rewrite prepareRecord_written.
  - apply map_ext. intros r. apply prepareRecord_written.
Qed.

Lemma headersOf_not_empty (csvContent : jsstring) : headersOf csvContent <> [].
Proof.
  unfold headersOf, CsvUtils.parseCsvLine.
  pose proof (parseLoop_count (length (nth 0 (split LF csvContent) []))
                (nth 0 (split LF csvContent) []) false [] [] ltac:(lia)) as H.
  intros E. rewrite E in H. simpl in H. lia.
Qed.




(** ** update-by-key *)

Section UpdateBy.
Variable fieldName : jsstring.
Variable updateDatas : Exact.keyed.
Variable headers : list jsstring.

Lemma updateBy_thrown (lines : list jsstring) (e : error) :
  fold_left (Exact.scanStep (Exact.updateByHandler fieldName updateDatas) headers)
    lines (Throw e)
  = Throw e.
Proof. induction lines as [|line lines IH]; simpl; [done|apply IH]. Qed.

Lemma updateBy_step (line : jsstring) (records : list (list jsval)) (n : nat) :
  isBlank line = false ->
  Exact.scanStep (Exact.updateByHandler fieldName updateDatas) headers
    (Ok (records, n)) line
  = if Exact.methodShadowed updateDatas && carriesKey fieldName headers line
    then Throw TypeError
    else Ok (records ++ [replaced fieldName updateDatas headers line],
             (n + if hit fieldName updateDatas headers line then 1 else 0)%nat).
Proof.
  intros Hb. unfold Exact.scanStep. cbn [bind]. rewrite Hb.
  unfold carriesKey, replaced, hit, keyOf, rowOf.
  cbn [Exact.shouldHandleData Exact.handleData Exact.updateByHandler].
  set (row := makeRow headers (CsvUtils.parseCsvLine line)).
  assert (Hkey : forall v,
    (let* accepted :=
       if Exact.methodShadowed updateDatas then Throw TypeError
       else Ok (bool_decide (is_Some (Exact.ownRecords updateDatas !! Exact.text v))) in
     if accepted then
       match Exact.ownRecords updateDatas !! Exact.text v with
       | Some newRow =>
           Ok (records ++ [csvModifyHandler.prepareRecord headers newRow], S n)
       | None => Ok (records, S n)
       end
     else Ok (records ++ [map JString (CsvUtils.parseCsvLine line)], n))
    = if Exact.methodShadowed updateDatas && true
      then Throw TypeError
      else Ok (records
               ++ [match Exact.ownRecords updateDatas !! Exact.text v with
                   | Some data => written headers data
                   | None => rawValues line
                   end],
               (n + if bool_decide (is_Some (Exact.ownRecords updateDatas !! Exact.text v))
                    then 1 else 0)%nat)).
  { intros v. rewrite andb_true_r.
    destruct (Exact.methodShadowed updateDatas); cbn [bind]; [done|].
    destruct (Exact.ownRecords updateDatas !! Exact.text v) as [data|] eqn:Hd.
    - rewrite bool_decide_eq_true_2 by eauto.
      rewrite prepareRecord_written. do 2 f_equal. lia.
    - rewrite bool_decide_eq_false_2 by (intros [? ?]; discriminate).
      rewrite Nat.add_0_r. done. }
  destruct (Exact.get row fieldName) as [[| |s]|name] eqn:Hget.
  - cbn [bind]. rewrite bool_decide_eq_false_2 by (intros [? ?]; discriminate).
    by rewrite andb_false_r, Nat.add_0_r.
  - cbn [bind]. rewrite bool_decide_eq_false_2 by (intros [? ?]; discriminate).
    by rewrite andb_false_r, Nat.add_0_r.
  - rewrite (bool_decide_eq_true_2 (is_Some (Some _))) by eauto. apply Hkey.
  - rewrite (bool_decide_eq_true_2 (is_Some (Some _))) by eauto. apply Hkey.
Qed.

Lemma updateBy_scan (lines : list jsstring) (records : list (list jsval)) (n : nat) :
  let kept := List.filter (fun l => negb (isBlank l)) lines in
  fold_left (Exact.scanStep (Exact.updateByHandler fieldName updateDatas) headers)
    lines (Ok (records, n))
  = if Exact.methodShadowed updateDatas && existsb (carriesKey fieldName headers) kept
    then Throw TypeError
    else Ok (records ++ map (replaced fieldName updateDatas headers) kept,
             (n + length (List.filter (hit fieldName updateDatas headers) kept))%nat).
Proof.
  revert records n. induction lines as [|line lines IH]; intros records n; cbn zeta.
  - simpl. by rewrite andb_false_r, app_nil_r, Nat.add_0_r.
  - cbn [fold_left List.filter].
    destruct (isBlank line) eqn:Hb; cbn [negb].
    + unfold Exact.scanStep at 2. cbn [bind]. rewrite Hb. apply IH.
    + rewrite updateBy_step by done. cbn [existsb map List.filter].
      destruct (Exact.methodShadowed updateDatas); cbn [andb].
      * destruct (carriesKey fieldName headers line); cbn [orb]; [apply updateBy_thrown|].
        rewrite IH. cbn [andb].
        destruct (existsb _ _); [done|].
        rewrite <- app_assoc. cbn [app].
        destruct (hit fieldName updateDatas headers line); cbn [length]; do 2 f_equal; lia.
      * rewrite IH. cbn [andb]. rewrite <- app_assoc. cbn [app].
        destruct (hit fieldName updateDatas headers line); cbn [length]; do 2 f_equal; lia.
Qed.

End UpdateBy.


(** A replacement takes the place of the whole row; a replacement with the
    key hasOwnProperty makes the update throw; one with the key __proto__
    is never applied. *)
Example updateBy_on_small_tables :
  let body := str "k,v" ++ LF :: str "1,old" ++ LF :: str "__proto__,old" in
  let one := <[str "k" := JString (str "1")]> ∅ in
  let method := <[str "k" := JString (str "hasOwnProperty")]> ∅ in
  let proto := <[str "k" := JString (str "__proto__")]>
                 (<[str "v" := JString (str "new")]> ∅) in
  Exact.execute
    (Exact.updateByHandler (str "k") (Exact.value (str "k") one Exact.noData)) body
  = Ok {| csvModifyHandler.affectedCount := 1;
          csvModifyHandler.csvContent :=
            str "k,v" ++ LF :: str "1," ++ LF :: str "__proto__,old" |}
  /\ Exact.execute
       (Exact.updateByHandler (str "k")
          (Exact.value (str "k") method (Exact.value (str "k") one Exact.noData))) body
     = Throw TypeError
  /\ Exact.execute
       (Exact.updateByHandler (str "k") (Exact.value (str "k") proto Exact.noData)) body
     = Ok {| csvModifyHandler.affectedCount := 0; csvModifyHandler.csvContent := body |}.
Proof. vm_compute. repeat split. Qed.

(** * Further properties of the code *)

(** ** Splitting and joining *)

Lemma split_cons_form (sep : ascii) (s : jsstring) :
  exists p ps, split sep s = p :: ps.
Proof.
  pose proof (split_length sep s) as H.
  destruct (split sep s) as [|p ps]; [simpl in H; lia|eauto].
Qed.

Lemma join_split (sep : ascii) (s : jsstring) : join sep (split sep s) = s.
Proof.
  induction s as [|c rest IH]; [done|].
  cbn [split]. destruct (split_cons_form sep rest) as (p & ps & Hs).
  rewrite Hs in *. destruct (decide (c = sep)) as [->|Hc].
  - change (join sep ([] :: p :: ps)) with ([] ++ sep :: join sep (p :: ps)).
    by rewrite IH.
  - destruct ps as [|p' ps].
    + cbn [join] in *. by rewrite IH.
    + change (join sep ((c :: p) :: p' :: ps))
        with (c :: (p ++ sep :: join sep (p' :: ps))).
      f_equal. exact IH.
Qed.

Lemma split_pieces_free (sep : ascii) (s : jsstring) :
  Forall (fun p => sep ∉ p) (split sep s).
Proof.
  induction s as [|c rest IH]; cbn [split].
  - apply Forall_cons. split; [apply not_elem_of_nil|by apply Forall_nil].
  - destruct (decide (c = sep)) as [->|Hc].
    + apply Forall_cons. split; [apply not_elem_of_nil|done].
    + destruct (split sep rest) as [|p ps].
      * apply Forall_cons. split; [|by apply Forall_nil].
        rewrite not_elem_of_cons. split; [done|apply not_elem_of_nil].
      * apply Forall_cons in IH as [Hp Hps]. apply Forall_cons. split; [|done].
        rewrite not_elem_of_cons. auto.
Qed.

Lemma split_pieces_within (sep : ascii) (s : jsstring) :
  Forall (fun p => forall x, x ∈ p -> x ∈ s) (split sep s).
Proof.
  induction s as [|c rest IH]; cbn [split].
  - apply Forall_cons. split; [done|by apply Forall_nil].
  - destruct (decide (c = sep)) as [->|Hc].
    + apply Forall_cons. split; [intros x Hx; by apply elem_of_nil in Hx|].
      apply (Forall_impl _ _ _ IH). intros p Hp x Hx. right. by apply Hp.
    + destruct (split sep rest) as [|p ps].
      * apply Forall_cons. split; [|by apply Forall_nil].
        intros x Hx. apply elem_of_cons in Hx as [->|Hx]; [by left|].
        by apply elem_of_nil in Hx.
      * apply Forall_cons in IH as [Hp Hps]. apply Forall_cons. split.
        -- intros x Hx. apply elem_of_cons in Hx as [->|Hx]; [by left|].
           right. by apply Hp.
        -- apply (Forall_impl _ _ _ Hps). intros q Hq x Hx. right. by apply Hq.
Qed.

(** ** Lines without quotes, and quotes left open *)

Lemma parseLoop_unquoted (line current : jsstring) (result : list jsstring) :
  QUOTE ∉ line ->
  CsvUtils.parseLoop line false current result
  = result ++ map CsvUtils.unescapeField
      (match split COMMA line with
       | p :: ps => (current ++ p) :: ps
       | [] => []
       end).
Proof.
  revert current result.
  induction line as [|c rest IH]; intros current result Hq.
  - cbn. by rewrite app_nil_r.
  - apply not_elem_of_cons in Hq as [Hc Hq].
    cbn [CsvUtils.parseLoop split]. rewrite (decide_False (P := c = QUOTE)) by done.
    destruct (split_cons_form COMMA rest) as (p & ps & Hs).
    destruct (decide (c = COMMA)) as [->|Hcomma].
    + rewrite IH by done. rewrite Hs. cbn [app map].
      rewrite app_nil_r. by rewrite <- app_assoc.
    + rewrite IH by done. rewrite Hs. cbn [map].
      by rewrite <- app_assoc.
Qed.

Lemma unquoted_line_fields (line : jsstring) :
  QUOTE ∉ line -> CsvUtils.parseCsvLine line = split COMMA line.
Proof.
  intros Hq. unfold CsvUtils.parseCsvLine. rewrite parseLoop_unquoted by done.
  cbn [app]. destruct (split_cons_form COMMA line) as (p & ps & Hs).
  pose proof (split_pieces_free COMMA line) as Hfree.
  pose proof (split_pieces_within COMMA line) as Hin.
  rewrite Hs in *. cbn [app]. apply map_fixed.
  apply Forall_forall. intros piece Hpiece.
  rewrite Forall_forall in Hfree, Hin.
  apply unescapeField_id, escapeFree_plain; [|by apply Hfree].
  intros Hx. apply Hq. by apply (Hin piece Hpiece).
Qed.

(** X1. A line that holds no quote is parsed into the pieces between its
    commas: [parseCsvLine] agrees with [split(',')] there, and backslashes
    are left as they are. *)
Theorem parse_unquoted_line (line : jsstring) :
  QUOTE ∉ line -> CsvUtils.parseCsvLine line = split COMMA line.
Proof. apply unquoted_line_fields. Qed.

Lemma parse_unquoted_line_example :
  CsvUtils.parseCsvLine (str "a.com,\x,,1") = [str "a.com"; str "\x"; str ""; str "1"].
Proof.
  rewrite (parse_unquoted_line (str "a.com,\x,,1")); [reflexivity|].
  apply includes_false. reflexivity.
Defined.

(** X2. [parseCsvLine] gives at least one field for every line, the empty
    one included, and at most one field more than the line has commas. *)
Theorem parse_field_count (line : jsstring) :
  (1 <= length (CsvUtils.parseCsvLine line) <= 1 + commas line)%nat.
Proof.
  pose proof (parseLoop_count (length line) line false [] [] ltac:(lia)) as H.
  simpl in H. unfold CsvUtils.parseCsvLine. lia.
Qed.

Lemma parseLoop_open_quote (t current : jsstring) (result : list jsstring) :
  QUOTE ∉ t ->
  CsvUtils.parseLoop t true current result
  = result ++ [CsvUtils.unescapeField (current ++ t)].
Proof.
  revert current. induction t as [|c t IH]; intros current Hq.
  - cbn. by rewrite app_nil_r.
  - apply not_elem_of_cons in Hq as [Hc Hq].
    cbn [CsvUtils.parseLoop]. rewrite decide_False by done.
    rewrite IH by done. by rewrite <- app_assoc.
Qed.

(** X3. A quote that is opened and never closed takes the rest of the line
    into one field, commas included; nothing is thrown. *)
Theorem parse_open_quote (before t : jsstring) :
  QUOTE ∉ before -> COMMA ∉ before -> QUOTE ∉ t ->
  CsvUtils.parseCsvLine (before ++ QUOTE :: t)
  = [CsvUtils.unescapeField (before ++ t)].
Proof.
  intros Hbq Hbc Ht. unfold CsvUtils.parseCsvLine.
  rewrite parseLoop_plain by done.
  cbn [CsvUtils.parseLoop app]. rewrite decide_True by done.
  by rewrite parseLoop_open_quote.
Qed.

Lemma parse_open_quote_example :
  CsvUtils.parseCsvLine (str "x" ++ QUOTE :: str "a,b,c") = [str "xa,b,c"].
Proof.
  rewrite (parse_open_quote (str "x") (str "a,b,c"));
    [reflexivity|apply includes_false; reflexivity..].
Defined.

(** X4. For every row of values that is not empty, commas, quotes and
    newlines allowed, parsing the line [execute] writes for it gives the
    values' texts back, each passed through [unescapeField]; a null or
    undefined value comes back as the empty string. *)
Theorem written_line_parsed_back (values : list jsval) :
  values <> [] ->
  CsvUtils.parseCsvLine (join COMMA (map CsvUtils.escapeCsvField values))
  = map (fun v => CsvUtils.unescapeField (fieldText v)) values.
Proof. apply line_read_back. Qed.

Lemma written_line_parsed_back_example :
  CsvUtils.parseCsvLine
    (join COMMA (map CsvUtils.escapeCsvField
                   [JString (str "a,b" ++ LF :: str "c"); JNull; JString [QUOTE]]))
  = [str "a,b" ++ LF :: str "c"; []; [QUOTE]].
Proof.
  rewrite (written_line_parsed_back
             [JString (str "a,b" ++ LF :: str "c"); JNull; JString [QUOTE]]);
    [reflexivity|discriminate].
Defined.

(** ** Predicates *)

(** X5. Whatever the row and the comparison argument, [notEq] accepts a
    row exactly when [eq] rejects it, and [notIn] exactly when [in]
    rejects it: null, undefined and absent fields are no exception. *)
Theorem notEq_is_not_eq (fieldName : jsstring) (value : jsval) (values : list jsval)
    (row : record) :
  csvDataFilter.test (csvDataFilter.notEq fieldName value []) row
  = negb (csvDataFilter.test (csvDataFilter.eq fieldName value []) row)
  /\ csvDataFilter.test (csvDataFilter.notIn fieldName values []) row
     = negb (csvDataFilter.test (csvDataFilter.inValues fieldName values []) row).
Proof.
  unfold csvDataFilter.notEq, csvDataFilter.eq, csvDataFilter.notIn, csvDataFilter.inValues.
  rewrite !app_nil_l, !test_single. split; [|reflexivity].
  unfold csvDataFilter.notEq_row, csvDataFilter.eq_row.
  destruct (getField row fieldName) as [| |v];
    destruct (csvDataFilter.strValueOf value) as [s|]; try reflexivity.
  by rewrite bool_decide_not.
Qed.

Lemma every_answers (fs : list Exact.predicate) (row : record) :
  Forall (fun f => exists b, f row = Ok b) fs ->
  Exact.test fs row
  = Ok (forallb (fun f => match f row with Ok true => true | _ => false end) fs).
Proof.
  induction 1 as [|f fs [b Hb] _ IH]; [done|].
  cbn [Exact.test forallb]. rewrite Hb. cbn [bind].
  destruct b; [by rewrite IH|done].
Qed.

(** X6. On a row on which no predicate of the filter throws, the order in
    which the predicates were added does not matter: two filters holding
    the same predicates, in any order, give the same answer. *)
Theorem filter_order_independent (fs gs : list Exact.predicate) (row : record) :
  fs ≡ₚ gs ->
  Forall (fun f => exists b, f row = Ok b) fs ->
  Exact.test fs row = Exact.test gs row.
Proof.
  intros Hperm Hfs.
  assert (Hgs : Forall (fun f => exists b, f row = Ok b) gs) by (by rewrite <- Hperm).
  rewrite !every_answers by done. f_equal.
  clear Hfs Hgs. induction Hperm as [|f fs gs _ IH|f g fs|fs gs hs _ IH1 _ IH2].
  - reflexivity.
  - cbn [forallb]. by rewrite IH.
  - cbn [forallb]. rewrite !andb_assoc. f_equal. apply andb_comm.
  - by rewrite IH1.
Qed.

Lemma filter_order_independent_example :
  let row : record := <[str "d" := JString (str "a.com")]> ∅ in
  Exact.test
    (Exact.like (str "d") (str "a%") (Exact.eq (str "d") (JString (str "a.com")) []))
    row
  = Exact.test
      (Exact.eq (str "d") (JString (str "a.com")) (Exact.like (str "d") (str "a%") []))
      row.
Proof.
  intros row. apply filter_order_independent.
  - unfold Exact.like, Exact.eq. cbn [app]. apply Permutation_swap.
  - unfold Exact.like, Exact.eq. cbn [app].
    apply Forall_cons. split; [eexists; vm_compute; reflexivity|].
    apply Forall_cons. split; [eexists; vm_compute; reflexivity|]. by apply Forall_nil.
Defined.

(** With a predicate that throws, the order shows: [every] stops at the
    first predicate that answers false. *)
Example filter_order_with_throw :
  let row : record := <[str "d" := JString (str "a.com")]> ∅ in
  let first := Exact.eq (str "d") (JString (str "b.com")) in
  let second := Exact.gt naturalOrder (str "toString") (JString (str "1")) in
  Exact.test (second (first [])) row = Ok false
  /\ Exact.test (first (second [])) row = Throw TypeError.
Proof. vm_compute. split; reflexivity. Qed.

Lemma matchAtoms_literal (p s : jsstring) (rest : list atom) :
  matchAtoms (map Lit p ++ rest) s
  = startsWith p s && matchAtoms rest (drop (length p) s).
Proof.
  revert s. induction p as [|c p IH]; intros s; [done|].
  cbn [map app matchAtoms startsWith length].
  destruct s as [|x s]; [done|].
  rewrite IH. cbn [drop]. rewrite <- andb_assoc. f_equal.
  apply bool_decide_ext. split; congruence.
Qed.

Lemma startsWith_exact (p s : jsstring) :
  startsWith p s && match drop (length p) s with [] => true | _ => false end
  = bool_decide (s = p).
Proof.
  revert s. induction p as [|c p IH]; intros s.
  - cbn. destruct s; [by rewrite bool_decide_eq_true_2|by rewrite bool_decide_eq_false_2].
  - destruct s as [|x s]; [by rewrite bool_decide_eq_false_2|].
    cbn [startsWith length drop]. rewrite <- andb_assoc, IH.
    destruct (decide (c = x)) as [->|Hne].
    + rewrite bool_decide_eq_true_2 by done. cbn.
      apply bool_decide_ext. split; congruence.
    + rewrite bool_decide_eq_false_2 by done. cbn.
      symmetry. apply bool_decide_eq_false_2. congruence.
Qed.

Lemma likeAtoms_literal (p : jsstring) :
  ("%"%char ∉ p) -> ("_"%char ∉ p) -> likeAtoms p = map Lit p.
Proof.
  intros Hp Hu. unfold likeAtoms. apply map_ext_Forall, Forall_forall.
  intros c Hc.
  rewrite decide_False by (intros ->; by apply Hp).
  by rewrite decide_False by (intros ->; by apply Hu).
Qed.

Lemma like_test (fieldName pattern : jsstring) (row : record) :
  Exact.test (Exact.like fieldName pattern []) row
  = Ok (matchAtoms (likeAtoms pattern) (likeText row fieldName)).
Proof.
  unfold Exact.like. rewrite app_nil_l, every_single.
  unfold Exact.like_row. rewrite like_compiles. cbn [regexTest].
  unfold likeText. by destruct (Exact.get row fieldName) as [[| |s]|name].
Qed.

(** X7. A [like] pattern without percent sign and underscore accepts a
    row exactly when the text the field is matched as is the pattern
    itself: every other character, those special to regular expressions
    included, stands for itself, and the match covers the whole value. *)
Theorem like_without_wildcard (fieldName pattern : jsstring) (row : record) :
  ("%"%char ∉ pattern) -> ("_"%char ∉ pattern) ->
  Exact.test (Exact.like fieldName pattern []) row
  = Ok (bool_decide (likeText row fieldName = pattern)).
Proof.
  intros Hp Hu. rewrite like_test, likeAtoms_literal by done.
  rewrite <- (app_nil_r (map Lit pattern)), matchAtoms_literal.
  cbn [matchAtoms]. f_equal. apply startsWith_exact.
Qed.

Lemma like_without_wildcard_example :
  Exact.test (Exact.like (str "d") (str "a.c*m") [])
    (<[str "d" := JString (str "a.c*m")]> ∅) = Ok true
  /\ Exact.test (Exact.like (str "d") (str "a.c*m") [])
       (<[str "d" := JString (str "aXccm")]> ∅) = Ok false.
Proof.
  split; rewrite like_without_wildcard by (apply includes_false; reflexivity);
    reflexivity.
Defined.

Lemma matchAtoms_run (s : jsstring) :
  matchAtoms [AnyRun] s = forallb (fun x => negb (isLineTerminator x)) s.
Proof.
  induction s as [|x s IH]; [done|].
  cbn [matchAtoms] in *. cbn [forallb]. rewrite IH. cbn [orb]. done.
Qed.

(** X8. A [like] pattern made of a text without wildcard followed by one
    percent sign accepts a row exactly when the text the field is matched
    as begins with that text and what follows it holds no line
    terminator: the percent sign does not run over a line break.  Among
    the code units 0 to 255 that strings are made of here, the line
    terminators are the line feed and the carriage return. *)
Theorem like_prefix (fieldName prefix : jsstring) (row : record) :
  ("%"%char ∉ prefix) -> ("_"%char ∉ prefix) ->
  Exact.test (Exact.like fieldName (prefix ++ str "%") []) row
  = Ok (startsWith prefix (likeText row fieldName)
        && forallb (fun x => negb (isLineTerminator x))
             (drop (length prefix) (likeText row fieldName))).
Proof.
  intros Hp Hu. rewrite like_test.
  unfold likeAtoms. rewrite map_app. fold (likeAtoms prefix).
  rewrite likeAtoms_literal by done. cbn [map str list_ascii_of_string].
  rewrite decide_True by done.
  by rewrite matchAtoms_literal, matchAtoms_run.
Qed.

Lemma like_prefix_example :
  Exact.test (Exact.like (str "d") (str "a.%") [])
    (<[str "d" := JString (str "a.com")]> ∅) = Ok true
  /\ Exact.test (Exact.like (str "d") (str "a.%") [])
       (<[str "d" := JString (str "a." ++ [CR])]> ∅) = Ok false.
Proof.
  split; rewrite (like_prefix (str "d") (str "a.")) by (apply includes_false; reflexivity);
    reflexivity.
Defined.

(** ** The comparator on swapped and on equal arguments *)

Lemma compareToken_swap (a b : token) :
  compareToken b a = CompOpp (compareToken a b).
Proof.
  destruct a, b; cbn [compareToken];
    first [apply Z.compare_antisym | apply Nat.compare_antisym].
Qed.

Lemma compareTokens_swap (x y : list token) :
  compareTokens y x = CompOpp (compareTokens x y).
Proof.
  revert y. induction x as [|a x IH]; intros [|b y]; try reflexivity.
  cbn [compareTokens]. rewrite compareToken_swap.
  destruct (compareToken a b); cbn [CompOpp]; [apply IH|reflexivity..].
Qed.

Lemma numSub_swap (x y : jsnum) :
  gt0 (numSub x y) = lt0 (numSub y x)
  /\ lt0 (numSub x y) = gt0 (numSub y x)
  /\ isNaN (numSub x y) = isNaN (numSub y x).
Proof.
  destruct x as [|s|m1 e1], y as [|s'|m2 e2]; cbn; try done.
  - destruct s, s'; cbn; done.
  - by destruct s.
  - by destruct s'.
  - rewrite (Z.min_comm e2 e1).
    set (a := m1 * 10 ^ (e1 - Z.min e1 e2)). set (b := m2 * 10 ^ (e2 - Z.min e1 e2)).
    repeat split.
    + destruct (Z.ltb_spec 0 (a - b)), (Z.ltb_spec (b - a) 0); done || lia.
    + destruct (Z.ltb_spec (a - b) 0), (Z.ltb_spec 0 (b - a)); done || lia.
Qed.

(** X9. Swapping the two arguments of [compareValue] swaps the sign of its
    result: one order is above zero exactly when the other is below zero,
    and one is [NaN] exactly when the other is. *)
Theorem compareValue_swap (a b : jsstring) :
  exists n n',
    CsvUtils.compareValue (JString a) (JString b) = Ok n
    /\ CsvUtils.compareValue (JString b) (JString a) = Ok n'
    /\ gt0 n = lt0 n' /\ lt0 n = gt0 n' /\ isNaN n = isNaN n'.
Proof.
  unfold CsvUtils.compareValue. cbn [ToString].
  rewrite (andb_comm (negb (isNaN (parseFloat b)))).
  destruct (negb (isNaN (parseFloat a)) && negb (isNaN (parseFloat b))).
  - eexists. eexists. split; [done|]. split; [done|]. apply numSub_swap.
  - eexists. eexists. split; [done|]. split; [done|].
    unfold localeCompare. rewrite (compareTokens_swap (tokens a) (tokens b)).
    by destruct (compareTokens (tokens a) (tokens b)).
Qed.

Lemma cmpHelper_present (collate : jsstring -> jsstring -> Z) (fieldName : jsstring)
    (s v : jsstring) (tester : jsnum -> bool) (row : record) (n : jsnum) :
  Exact.compareValue collate (Exact.Own (JString v)) (Exact.Own (JString s)) = Ok n ->
  Exact.test (Exact._cmpHelper collate fieldName (JString s) tester [])
    (<[fieldName := JString v]> row)
  = Ok (tester n).
Proof.
  intros Hn. unfold Exact._cmpHelper. rewrite app_nil_l, every_single.
  unfold Exact._cmpHelper_row. rewrite get_present.
  cbn [csvDataFilter.strValueOf isNullish ToString]. by rewrite Hn.
Qed.

Lemma compareValue_same (collate : jsstring -> jsstring -> Z) (a : jsstring) :
  collate a a = 0 ->
  Exact.compareValue collate (Exact.Own (JString a)) (Exact.Own (JString a))
  = Ok (if isInf (Exact.parseFloat a) then NaN else Fin 0 0).
Proof.
  intros Hrefl. unfold Exact.compareValue. cbn [Exact.text ToString].
  destruct (Exact.parseFloat a) as [|s|m e] eqn:Hp; cbn [isNaN negb andb isInf].
  - by rewrite Hrefl.
  - unfold Exact.numSub. cbn. by destruct s.
  - unfold Exact.numSub. cbn [numSub].
    rewrite (Z.sub_diag (m * 10 ^ (e - Z.min e e))). reflexivity.
Qed.

(** X10. Under a collation that calls every string equal to itself: on a
    row whose field holds the very value it is compared with, [ge] and
    [le] accept the row and [gt] and [lt] reject it, except when the value
    reads as an infinity (as Infinity and 1e400 do): the difference of an
    infinity and itself is [NaN], and then all four reject the row. *)
Theorem ordering_on_equal_values (collate : jsstring -> jsstring -> Z)
    (fieldName a : jsstring) (row : record) :
  collate a a = 0 ->
  let holds := <[fieldName := JString a]> row in
  Exact.test (Exact.ge collate fieldName (JString a) []) holds
  = Ok (negb (isInf (Exact.parseFloat a)))
  /\ Exact.test (Exact.le collate fieldName (JString a) []) holds
     = Ok (negb (isInf (Exact.parseFloat a)))
  /\ Exact.test (Exact.gt collate fieldName (JString a) []) holds = Ok false
  /\ Exact.test (Exact.lt collate fieldName (JString a) []) holds = Ok false.
Proof.
  intros Hrefl holds. subst holds.
  unfold Exact.ge, Exact.le, Exact.gt, Exact.lt.
  rewrite !(cmpHelper_present _ _ _ _ _ _ _ (compareValue_same collate a Hrefl)).
  by destruct (isInf (Exact.parseFloat a)).
Qed.

Lemma ordering_on_equal_values_example :
  Exact.test (Exact.ge naturalOrder (str "n") (JString (str "1e400")) [])
    (<[str "n" := JString (str "1e400")]> ∅) = Ok false
  /\ Exact.test (Exact.ge naturalOrder (str "n") (JString (str "a7")) [])
       (<[str "n" := JString (str "a7")]> ∅) = Ok true.
Proof.
  destruct (ordering_on_equal_values naturalOrder (str "n") (str "1e400") ∅ eq_refl)
    as (H1 & _).
  destruct (ordering_on_equal_values naturalOrder (str "n") (str "a7") ∅ eq_refl)
    as (H2 & _).
  split; [rewrite H1 | rewrite H2]; vm_compute; reflexivity.
Defined.

(** ** Projection and the first row *)

Lemma project_from (selectFields : list jsstring) (row : record)
    (newRow : Exact.shownRow) (f : jsstring) :
  fold_left
    (fun newRow field =>
       if decide (field = str "__proto__") then newRow
       else <[field := Exact.get row field]> newRow)
    selectFields newRow
    !! f
  = if decide (f ∈ selectFields /\ f <> str "__proto__")
    then Some (Exact.get row f) else newRow !! f.
Proof.
  revert newRow. induction selectFields as [|x fields IH]; intros newRow.
  - cbn. rewrite decide_False; [done|]. intros [H _]. by apply elem_of_nil in H.
  - cbn [fold_left]. rewrite IH.
    destruct (decide (f ∈ fields /\ f <> str "__proto__")) as [[Hin Hp]|Hnot].
    + rewrite decide_True; [done|]. split; [by right|done].
    + destruct (decide (x = str "__proto__")) as [->|Hx].
      * rewrite decide_False; [done|].
        intros [Hin Hp]. apply elem_of_cons in Hin as [->|Hin]; [done|]. by apply Hnot.
      * destruct (decide (f = x)) as [->|Hne].
        -- rewrite decide_True by (split; [by left|done]). by rewrite lookup_insert_eq.
        -- rewrite decide_False.
           ++ by rewrite lookup_insert_ne.
           ++ intros [Hin Hp]. apply elem_of_cons in Hin as [->|Hin]; [done|].
              by apply Hnot.
Qed.

(** X11. The record [fetch] returns for a row under a projection holds
    exactly the requested fields, the name __proto__ apart, under which
    nothing is stored: each with what the row gives for it, that is the
    row's value, the inherited function for a name every object inherits
    and the row lacks, and [undefined] for any other name the row lacks (a
    field held with that value, not left out); no other field of the row
    is kept. *)
Theorem project_fields (selectFields : list jsstring) (row : record) (f : jsstring) :
  Exact.project selectFields row !! f
  = if decide (f ∈ selectFields /\ f <> str "__proto__")
    then Some (Exact.get row f) else None.
Proof. unfold Exact.project. by rewrite project_from, lookup_empty. Qed.

Lemma head_slice_default {A} (l : list A) :
  head (slice 0 (0 + MAX_VALUE) l) = head l.
Proof.
  pose proof MAX_VALUE_large as Hmax. unfold slice. rewrite Z.add_0_l.
  rewrite (proj2 (Z.ltb_ge 0 0)) by lia.
  rewrite (proj2 (Z.ltb_ge MAX_VALUE 0)) by lia.
  rewrite (Z.min_l 0) by lia. rewrite Z.sub_0_r. cbn [Z.to_nat drop].
  destruct l as [|x l]; [reflexivity|].
  destruct (Z.to_nat (Z.min MAX_VALUE (Z.of_nat (length (x :: l))))) eqn:Hn;
    [|reflexivity].
  exfalso. cbn [length] in Hn. lia.
Qed.

Lemma head_map {A B} (f : A -> B) (l : list A) : head (map f l) = f <$> head l.
Proof. by destruct l. Qed.

(** X12. [fetchOne] of a select that has a filter but no order, offset or
    limit gives the first data row, in file order, that the filter
    accepts (projected on the requested fields), and none when no row is
    accepted; on a table that does not exist it fails with the store's
    not-found error. *)
Theorem fetchOne_first_match (sha : jsstring -> jsstring) (fields : list jsstring)
    (flt : list csvDataFilter.predicate) (path : jsstring) (st : gmap jsstring jsstring) :
  fetchOne sha (csvDb.withFilter (fun _ => flt) (csvDb.selectFrom fields)) path st
  = match st !! path with
    | Some csvContent => Ok (projection fields <$> head (matching flt csvContent))
    | None => Throw (ApiError 404)
    end.
Proof.
  unfold fetchOne, selectFetch, getFileContent, getFileInfo.
  destruct (st !! path) as [c|]; [|reflexivity]. cbn [bind content].
  unfold csvDataFetcher.fetch.
  destruct (decide _) as [E|_]; [by apply split_not_empty in E|].
  rewrite fetch_scan_spec. cbn.
  change (List.filter (csvDataFilter.test flt) _) with (matching flt c).
  destruct fields as [|f fields]; cbn [bind].
  - rewrite head_slice_default. by destruct (matching flt c).
  - rewrite head_map, head_slice_default. reflexivity.
Qed.

(** ** What delete, update and insert write *)

Lemma flat_map_dropped {A B} (p : A -> bool) (g : A -> B) (l : list A) :
  flat_map (fun x => if p x then [] else [g x]) l
  = map g (List.filter (fun x => negb (p x)) l).
Proof.
  induction l as [|x l IH]; [done|]. cbn. destruct (p x); cbn; by rewrite IH.
Qed.

Lemma filter_split_length {A} (p : A -> bool) (l : list A) :
  (length (List.filter p l) + length (List.filter (fun x => negb (p x)) l))%nat = length l.
Proof.
  induction l as [|x l IH]; [done|]. cbn. destruct (p x); cbn; lia.
Qed.

(** X13. A delete writes back, in file order and from their own parsed
    values, exactly the data rows its filter rejects, and counts the rows
    it accepts: the count and the rows written add up to the data rows of
    the table. *)
Theorem delete_keeps_the_rest (flt : list csvDataFilter.predicate) (csvContent : jsstring) :
  let headers := headersOf csvContent in
  let accepted line := csvDataFilter.test flt (rowOf headers line) in
  let kept := List.filter (fun line => negb (accepted line)) (dataLines csvContent) in
  exists o,
    csvModifyHandler.execute (csvDb.deleteHandler flt) csvContent = Ok o
    /\ csvModifyHandler.csvContent o = csvModifyHandler.serialize headers (map rawValues kept)
    /\ csvModifyHandler.affectedCount o
       = length (List.filter accepted (dataLines csvContent))
    /\ (csvModifyHandler.affectedCount o + length kept)%nat
       = length (dataLines csvContent).
Proof.
  intros headers accepted kept. eexists. split; [apply execute_spec|].
  cbn [csvModifyHandler.csvContent csvModifyHandler.affectedCount].
  assert (Hrows : newRows (csvDb.deleteHandler flt) csvContent = map rawValues kept).
  { unfold newRows. cbn [csvDb.deleteHandler csvModifyHandler.appendRows map].
    rewrite app_nil_r. apply (flat_map_dropped accepted rawValues). }
  rewrite Hrows. split; [done|].
  cbn [csvDb.deleteHandler csvModifyHandler.appendRows length].
  rewrite Nat.add_0_r. split; [reflexivity|].
  apply (filter_split_length accepted).
Qed.

(** X14. A delete or an update to which no predicate was added applies to
    every data row: the delete leaves the header line alone in the body,
    and both count all the data rows. *)
Theorem no_predicate_means_every_row (updateFields : gmap jsstring jsstring)
    (csvContent : jsstring) :
  csvModifyHandler.execute (csvDb.deleteHandler []) csvContent
  = Ok {| csvModifyHandler.affectedCount := length (dataLines csvContent);
          csvModifyHandler.csvContent := join COMMA (headersOf csvContent) |}
  /\ exists o,
       csvModifyHandler.execute
         (csvDb.updateHandler {| csvDb.updateFields := updateFields;
                                 csvDb.updateFilter := [] |}) csvContent = Ok o
       /\ csvModifyHandler.affectedCount o = length (dataLines csvContent).
Proof.
  split.
  - rewrite execute_spec. f_equal. f_equal.
    + rewrite processed_filter. cbn [csvDb.deleteHandler csvModifyHandler.shouldHandleData
        csvModifyHandler.appendRows length].
      rewrite filter_all by (by apply Forall_forall).
      rewrite length_map. lia.
    + unfold newRows. cbn [csvDb.deleteHandler csvModifyHandler.appendRows map].
      rewrite app_nil_r.
      rewrite (flat_map_dropped (fun _ => true) rawValues).
      replace (List.filter (fun _ : jsstring => negb true) (dataLines csvContent))
        with (@nil jsstring); [reflexivity|].
      induction (dataLines csvContent); [done|]. cbn. done.
  - eexists. split; [apply execute_spec|].
    cbn [csvModifyHandler.affectedCount]. rewrite processed_filter.
    cbn [csvDb.updateHandler csvModifyHandler.shouldHandleData
         csvModifyHandler.appendRows csvDb.updateFilter length].
    rewrite filter_all by (by apply Forall_forall).
    rewrite length_map. lia.
Qed.

Lemma first_line_of_join (l : jsstring) (ls : list jsstring) :
  LF ∉ l -> nth 0 (split LF (join LF (l :: ls))) [] = l.
Proof.
  intros Hl. destruct ls as [|l' ls].
  - cbn [join]. by rewrite split_plain.
  - change (join LF (l :: l' :: ls)) with (l ++ LF :: join LF (l' :: ls)).
    by rewrite split_app.
Qed.

Lemma first_line_free (csvContent : jsstring) :
  LF ∉ nth 0 (split LF csvContent) [].
Proof.
  pose proof (split_pieces_free LF csvContent) as Hfree.
  destruct (split_cons_form LF csvContent) as (p & ps & Hs).
  rewrite Hs in *. cbn [nth]. by apply Forall_cons in Hfree as [Hp _].
Qed.

(** X15. When the first line of a body holds no quote, every mutation
    writes that line back unchanged, so the table keeps its header. *)
Theorem mutation_keeps_header (h : csvModifyHandler.handler) (csvContent : jsstring) :
  QUOTE ∉ nth 0 (split LF csvContent) [] ->
  exists o,
    csvModifyHandler.execute h csvContent = Ok o
    /\ nth 0 (split LF (csvModifyHandler.csvContent o)) [] = nth 0 (split LF csvContent) []
    /\ headersOf (csvModifyHandler.csvContent o) = headersOf csvContent.
Proof.
  intros Hq. eexists. split; [apply execute_spec|].
  cbn [csvModifyHandler.csvContent].
  assert (Hline : nth 0 (split LF (csvModifyHandler.serialize (headersOf csvContent)
                                     (newRows h csvContent))) []
                  = nth 0 (split LF csvContent) []).
  { unfold csvModifyHandler.serialize, headersOf.
    rewrite unquoted_line_fields by done. rewrite join_split.
    apply first_line_of_join, first_line_free. }
  split; [exact Hline|]. unfold headersOf at 1. by rewrite Hline.
Qed.

Lemma mutation_keeps_header_example :
  headersOf
    (match csvModifyHandler.execute (csvDb.deleteHandler [])
             (str "domain,cookies" ++ LF :: str "a.com,1") with
     | Ok o => csvModifyHandler.csvContent o
     | Throw _ => []
     end)
  = [str "domain"; str "cookies"].
Proof.
  destruct (mutation_keeps_header (csvDb.deleteHandler [])
              (str "domain,cookies" ++ LF :: str "a.com,1")) as (o & Ho & _ & Hh).
  - apply includes_false. reflexivity.
  - rewrite Ho, Hh. reflexivity.
Defined.

Lemma updated_field (updateFields : gmap jsstring jsstring) (row : record) (h : jsstring) :
  getField (map_fold (fun field newVal row => <[field := JString newVal]> row)
              row updateFields) h
  = match updateFields !! h with
    | Some newVal => JString newVal
    | None => getField row h
    end.
Proof.
  apply (map_fold_weak_ind
           (fun (r : record) (m : gmap jsstring jsstring) =>
              getField r h = match m !! h with
                             | Some newVal => JString newVal
                             | None => getField row h
                             end)).
  - by rewrite lookup_empty.
  - intros i x m r Hi IH. unfold getField in *.
    destruct (decide (i = h)) as [->|Hne].
    + by rewrite !lookup_insert_eq.
    + by rewrite !lookup_insert_ne by done.
Qed.



(** ** Tables in the store *)

(** X18. [createIfNotExist] never touches a table that exists: it then
    answers false and leaves the store as it is.  When the table is
    absent it answers true and writes the header names joined by commas.
    Either way the table exists afterwards, and a second call answers
    false and changes nothing. *)
Theorem createIfNotExist_once (sha : jsstring -> jsstring) (csvPath csvFileName : jsstring)
    (headers : list jsstring) (st : gmap jsstring jsstring) :
  let path := tablePath csvPath csvFileName in
  exists created st',
    createIfNotExist sha csvPath csvFileName headers st = Ok (created, st')
    /\ match st !! path with
       | Some _ => created = false /\ st' = st
       | None => created = true /\ st' = <[path := join COMMA headers]> st
       end
    /\ is_Some (st' !! path)
    /\ createIfNotExist sha csvPath csvFileName headers st' = Ok (false, st').
Proof.
  intros path. unfold createIfNotExist, getFileInfo, createFile. fold path.
  destruct (st !! path) as [c|] eqn:Hc.
  - exists false, st. rewrite Hc. eauto.
  - exists true, (<[path := join COMMA headers]> st).
    rewrite decide_True by done. cbn [bind].
    rewrite lookup_insert_eq. eauto.
Qed.

Lemma mutation_alone_body (sha : jsstring -> jsstring) (h : csvModifyHandler.handler)
    (path : jsstring) (st : gmap jsstring jsstring) (csvContent : jsstring) :
  st !! path = Some csvContent ->
  executeMutation sha h path st
  = Ok ((processed h (headersOf csvContent) (dataLines csvContent)
         + length (csvModifyHandler.appendRows h))%nat,
        <[path := csvModifyHandler.serialize (headersOf csvContent)
                    (newRows h csvContent)]> st).
Proof.
  intros Hc.
  unfold executeMutation, getFileContent, updateFile, getFileInfo, putFile.
  rewrite Hc. cbn [bind content fileSha]. rewrite execute_spec.
  cbn [bind content fileSha csvModifyHandler.csvContent csvModifyHandler.affectedCount].
  by rewrite decide_True.
Qed.

(** X19. A mutation run with no other request served in between succeeds
    on every table that exists: its write is never refused, the table's
    body becomes the body the executor computed, no other file changes,
    and the count is returned.  On a table that does not exist it fails
    with the store's not-found error. *)
Theorem mutation_alone (sha : jsstring -> jsstring) (h : csvModifyHandler.handler)
    (path : jsstring) (st : gmap jsstring jsstring) :
  match st !! path with
  | Some csvContent =>
      exists o,
        csvModifyHandler.execute h csvContent = Ok o
        /\ executeMutation sha h path st
           = Ok (csvModifyHandler.affectedCount o,
                 <[path := csvModifyHandler.csvContent o]> st)
  | None => executeMutation sha h path st = Throw (ApiError 404)
  end.
Proof.
  unfold executeMutation, getFileContent, updateFile, getFileInfo, putFile.
  destruct (st !! path) as [c|] eqn:Hc; [|reflexivity].
  eexists. split; [apply execute_spec|].
  cbn [bind content fileSha]. rewrite execute_spec.
  cbn [bind content fileSha csvModifyHandler.csvContent csvModifyHandler.affectedCount].
  by rewrite decide_True.
Qed.

Lemma created_body (headers : list jsstring) :
  Forall (fun h => LF ∉ h) headers ->
  split LF (join COMMA headers ++ [LF]) = [join COMMA headers; []].
Proof.
  intros Hfree. rewrite split_app; [reflexivity|].
  apply join_free; [done|exact Hfree].
Qed.

Lemma slice_nil {A} (start end_ : Z) : slice start end_ (@nil A) = [].
Proof. unfold slice. by rewrite drop_nil, take_nil. Qed.

(** X20. A table that [create] has just written holds no rows: when no
    header name holds a newline, every select on it, whatever its filter,
    order, offset, limit and projection, returns the empty list.  On a
    path that is taken, [create] fails and writes nothing. *)
Theorem created_table_is_empty (sha : jsstring -> jsstring) (csvPath csvFileName : jsstring)
    (headers : list jsstring) (st : gmap jsstring jsstring) (b : csvDb.selectBuilder) :
  Forall (fun h => LF ∉ h) headers ->
  let path := tablePath csvPath csvFileName in
  match st !! path with
  | Some _ => create csvPath csvFileName headers st = Throw (ApiError 422)
  | None =>
      exists st',
        create csvPath csvFileName headers st = Ok st'
        /\ st' = <[path := join COMMA headers ++ [LF]]> st
        /\ selectFetch sha b path st' = Ok []
  end.
Proof.
  intros Hfree path. unfold create, createFile. fold path.
  destruct (st !! path) as [c|] eqn:Hc; [reflexivity|].
  eexists. split; [reflexivity|]. split; [reflexivity|].
  unfold selectFetch, getFileContent, getFileInfo. rewrite lookup_insert_eq.
  cbn [bind content]. unfold csvDataFetcher.fetch.
  destruct (decide _) as [E|_]; [by apply split_not_empty in E|].
  rewrite created_body by done. cbn [drop nth].
  cbn [csvDataFetcher.scan fold_left isBlank forallb].
  assert (Hsort : csvDataFetcher.sortRecords (csvDb.fetcher b) [] = Ok []).
  { unfold csvDataFetcher.sortRecords. by destruct (csvDataFetcher.orderField _). }
  rewrite Hsort. cbn [bind]. rewrite slice_nil.
  by destruct (csvDataFetcher.selectField (csvDb.fetcher b)).
Qed.

Lemma created_table_is_empty_example :
  selectFetch (fun c => c) (csvDb.selectFrom []) (str "db/cookie.csv")
    (<[str "db/cookie.csv" := str "domain,cookies" ++ [LF]]> ∅)
  = Ok [].
Proof.
  pose proof (created_table_is_empty (fun c => c) (str "db") (str "cookie")
                [str "domain"; str "cookies"] ∅ (csvDb.selectFrom [])) as H.
  cbn zeta in H. rewrite lookup_empty in H.
  destruct H as (st' & _ & -> & Hsel).
  - apply Forall_cons. split; [apply includes_false; reflexivity|].
    apply Forall_cons. split; [apply includes_false; reflexivity|]. by apply Forall_nil.
  - exact Hsel.
Defined.

(** X21. Creating a table and then inserting records into it, with
    nothing served in between, leaves the table holding the encoding of
    the header and the records, and the insert returns the number of
    records: the blank line [create] wrote after the header is gone. *)
Theorem insert_after_create (sha : jsstring -> jsstring) (csvPath csvFileName : jsstring)
    (headers : list jsstring) (records : list record) (st : gmap jsstring jsstring) :
  headers <> [] ->
  Forall plainName headers ->
  st !! tablePath csvPath csvFileName = None ->
  (let* st1 := create csvPath csvFileName headers st in
   executeMutation sha (csvDb.insertHandler records) (tablePath csvPath csvFileName) st1)
  = Ok (length records,
        <[tablePath csvPath csvFileName := encode headers records]> st).
Proof.
  intros Hne Hnames Habsent.
  set (path := tablePath csvPath csvFileName) in *.
  unfold create, createFile. fold path. rewrite Habsent. cbn [bind].
  pose proof (mutation_alone_body sha (csvDb.insertHandler records) path
                (<[path := join COMMA headers ++ [LF]]> st)
                (join COMMA headers ++ [LF]) (lookup_insert_eq _ _ _)) as Hm.
  rewrite Hm. rewrite insert_insert_eq.
  assert (Hsplit : split LF (join COMMA headers ++ [LF]) = [join COMMA headers; []]).
  { apply created_body. apply (Forall_impl _ _ _ Hnames). by intros h (_ & _ & Hlf). }
  assert (Hheaders : headersOf (join COMMA headers ++ [LF]) = headers).
  { unfold headersOf. rewrite Hsplit. cbn [nth].
    apply header_read_back; [done|].
    apply (Forall_impl _ _ _ Hnames). by intros h (Hc & Hq & _). }
  unfold newRows, dataLines, processed. rewrite Hheaders, Hsplit.
  reflexivity.
Qed.

Lemma insert_after_create_example :
  (let* st1 := create (str "db") (str "cookie") [str "domain"; str "cookies"] ∅ in
   executeMutation (fun c => c)
     (csvDb.insertHandler [<[str "domain" := JString (str "a.com")]> ∅])
     (tablePath (str "db") (str "cookie")) st1)
  = Ok (1%nat,
        <[tablePath (str "db") (str "cookie")
            := str "domain,cookies" ++ LF :: str "a.com,"]> ∅).
Proof.
  rewrite (insert_after_create (fun c => c) (str "db") (str "cookie")
             [str "domain"; str "cookies"]
             [<[str "domain" := JString (str "a.com")]> ∅] ∅).
  - reflexivity.
  - discriminate.
  - apply Forall_cons. split.
    { repeat split; apply includes_false; reflexivity. }
    apply Forall_cons. split; [|by apply Forall_nil].
    repeat split; apply includes_false; reflexivity.
  - apply lookup_empty.
Defined.

(** ** The key of a site *)

Lemma join_app (sep : ascii) (a b : list jsstring) :
  a <> [] -> b <> [] -> join sep (a ++ b) = join sep a ++ sep :: join sep b.
Proof.
  intros Ha Hb. induction a as [|x a IH]; [done|].
  destruct a as [|y a].
  - cbn [app]. destruct b as [|z b]; [done|]. reflexivity.
  - change (join sep ((x :: y :: a) ++ b)) with (x ++ sep :: join sep ((y :: a) ++ b)).
    rewrite IH by done.
    change (join sep (x :: y :: a)) with (x ++ sep :: join sep (y :: a)).
    by rewrite <- app_assoc.
Qed.

Lemma slice_last_two {A} (l : list A) :
  (2 < length l)%nat ->
  slice (-2) (Z.of_nat (length l)) l = drop (length l - 2) l.
Proof.
  intros Hlen. unfold slice.
  rewrite (proj2 (Z.ltb_lt (-2) 0)) by lia.
  rewrite (proj2 (Z.ltb_ge (Z.of_nat (length l)) 0)) by lia.
  rewrite Z.min_id. rewrite Z.max_l by lia.
  replace (Z.to_nat (Z.of_nat (length l) + -2)) with (length l - 2)%nat by lia.
  apply take_ge. rewrite length_drop. lia.
Qed.

Lemma getRootDomain_labels (hostname : jsstring) :
  exists front kept,
    split "."%char hostname = front ++ kept
    /\ kept <> []
    /\ (length kept <= 2)%nat
    /\ (front = [] \/ length kept = 2%nat)
    /\ getRootDomain hostname = join "."%char kept.
Proof.
  unfold getRootDomain. set (parts := split "."%char hostname).
  destruct (Nat.ltb_spec 2 (length parts)) as [Hlong|Hshort].
  - exists (take (length parts - 2) parts), (drop (length parts - 2) parts).
    rewrite take_drop. rewrite slice_last_two by done.
    assert (Hlen : length (drop (length parts - 2) parts) = 2%nat)
      by (rewrite length_drop; lia).
    repeat split; [|lia|by right].
    intros E. rewrite E in Hlen. discriminate Hlen.
  - exists [], parts. repeat split; [|done|by left].
    intros E. pose proof (split_length "."%char hostname) as H1.
    subst parts. rewrite E in H1. simpl in H1. lia.
Qed.

(** X22. The site key [getRootDomain] computes ends the host name it was
    computed from, has two labels at most, and is the host name itself
    when that has two labels at most; computing the key of a key gives the
    key again. *)
Theorem getRootDomain_key (hostname : jsstring) :
  (exists before, hostname = before ++ getRootDomain hostname)
  /\ (length (split "."%char (getRootDomain hostname)) <= 2)%nat
  /\ getRootDomain hostname
     = (if (2 <? length (split "."%char hostname))%nat
        then join "."%char (drop (length (split "."%char hostname) - 2)
                              (split "."%char hostname))
        else hostname)
  /\ getRootDomain (getRootDomain hostname) = getRootDomain hostname.
Proof.
  destruct (getRootDomain_labels hostname) as (front & kept & Hsplit & Hne & Hlen & Hfront & Hkey).
  assert (Hfree : Forall (fun p => "."%char ∉ p) kept).
  { pose proof (split_pieces_free "."%char hostname) as H.
    rewrite Hsplit in H. by apply Forall_app in H as [_ H]. }
  assert (Hback : split "."%char (getRootDomain hostname) = kept).
  { rewrite Hkey. by apply split_join. }
  split; [|split; [|split]].
  - rewrite Hkey. destruct front as [|f front].
    + exists []. cbn [app] in *. by rewrite <- Hsplit, join_split.
    + exists (join "."%char (f :: front) ++ ["."%char]).
      rewrite <- app_assoc. cbn [app].
      rewrite <- join_app by done. by rewrite <- Hsplit, join_split.
  - by rewrite Hback.
  - unfold getRootDomain.
    destruct (Nat.ltb_spec 2 (length (split "."%char hostname))) as [Hlong|Hshort].
    + by rewrite slice_last_two.
    + apply join_split.
  - unfold getRootDomain at 1. rewrite Hback.
    rewrite (proj2 (Nat.ltb_ge 2 (length kept))) by lia.
    by rewrite Hkey.
Qed.

(** ** The fields of a row *)


